(** * Authentication gate of cnaas-nms: [cnaas_nms/tools/security.py]

    A shallow embedding of the bearer-token gate: the process-wide key
    registry ([JWKSStore]), key refresh and lookup ([get_keys], [get_key]),
    token verification ([authenticate_token]), identity resolution with its
    Redis cache ([get_oauth_userinfo]) and the permission check
    ([validate_token]).

    Python code that raises is modelled in a state-and-exception monad.  The
    state holds what the code mutates (the key registry and the Redis hash)
    together with a log of the external calls it makes.  Everything the code
    only calls (python-jose, requests, Redis, the rbac helpers) is an input:
    pure library functions are fields of [Externals], the network and the
    cache backend answer through [World]. *)

From Stdlib Require Import ZArith String List Bool Lia.
From stdpp Require Import base option list gmap strings fin_maps.

Open Scope string_scope.
Open Scope Z_scope.
Open Scope list_scope.

(** ** Values *)

(** A JSON scalar as it appears in token payloads and userinfo answers.
    JSON numbers are integers here; floating point is outside the model. *)
Inductive jval :=
  | JStr (s : string)
  | JInt (z : Z).

(** A decoded payload or a userinfo answer: a JSON object. *)
Abbreviation claims := (gmap string jval).

(** A JSON Web Key as served by the provider: an object of strings.  The
    [kid] member may be missing, which the code meets as a [KeyError]. *)
Abbreviation jwk := (gmap string string).

(** Exception classes the module raises, catches or lets through.  Messages
    are not modelled, only the class. *)
Inductive exn :=
  (* jwt.exceptions *)
  | InvalidTokenError
  | ExpiredSignatureError
  | InvalidAudienceError
  | InvalidKeyError
  (* builtins *)
  | ConnectionError
  | KeyError
  | TypeError
  | ValueError
  | AttributeError
  (* json.decoder *)
  | JSONDecodeError
  (* redis.exceptions *)
  | RedisError
  (* requests.exceptions; [HTTPError] carries the parsed body of its
     response, [None] when that body is not JSON *)
  | ReqHTTPError (body : option claims)
  | ReqConnectionError
  | ReqTimeout
  | ReqOtherError      (* any other RequestException *)
  | ReqJSONDecodeError.

Inductive result (A : Type) :=
  | Ret (a : A)
  | Raise (e : exn).
Arguments Ret {A} a.
Arguments Raise {A} e.

(** ** The token object *)

(** Modelled from the spec: the class [Token] of [cnaas_nms.tools.rbac.token]
    is not part of the sources at hand.  Section 3 of the specification gives
    it a raw string and an optional decoded claims map, absent for a token
    that could not be parsed; the constructor call [Token(token_string, None)]
    of [authenticate_token] builds exactly that. *)
Record Token := mkToken {
  token_string : string;
  decoded_token : option claims
}.

(** What [authenticate_token] hands back: the string ["no-token-needed"] or a
    [Token]. *)
Inductive auth_result :=
  | NoTokenNeeded
  | Tok (t : Token).

(** ** Settings *)

(** A permitted operation: verb and path pattern. *)
Abbreviation operation := (string * string)%type.

(** [api_settings] and [auth_settings].  [PERMISSIONS] is [None] when unset. *)
Record Settings := mkSettings {
  JWT_ENABLED : bool;
  OIDC_ENABLED : bool;
  VERIFY_AUDIENCE : bool;
  AUDIENCE : string;
  PERMISSIONS_DISABLED : bool;
  PERMISSIONS : option (gmap string (list operation));
  OIDC_CONF_WELL_KNOWN_URL : string
}.

(** ** The outside world *)

(** An HTTP answer: status, body text and what [.json()] makes of the body
    ([None] when it is not JSON).  A body that is JSON is taken to have the
    types the code subscripts it at: an object for the discovery document
    and the userinfo, an object whose [keys] is a list of objects for the
    key set.  A body of another type (a list, a number) would give a
    [TypeError] at the subscript; such answers are outside this model. *)
Record response (A : Type) := mkResponse {
  status_code : Z;
  text : string;
  json : option A
}.
Arguments mkResponse {A}.
Arguments status_code {A}.
Arguments text {A}.
Arguments json {A}.

(** What a request of [requests] raises instead of answering, by the
    classes the handlers of this module tell apart: [ConnectionError] and
    its subclasses; a [Timeout] that is not one of them; any other
    [RequestException] ([MissingSchema] and [InvalidURL] for a malformed
    address, [TooManyRedirects], ...), which no handler of the module
    takes.  An [HTTPError] is not among them: only [raise_for_status]
    raises it. *)
Inductive transport_error :=
  | Unreachable          (* requests.exceptions.ConnectionError *)
  | TimedOut             (* requests.exceptions.Timeout *)
  | OtherRequestError.   (* any other requests.exceptions.RequestException *)

Definition exn_of_transport (t : transport_error) : exn :=
  match t with
  | Unreachable => ReqConnectionError
  | TimedOut => ReqTimeout
  | OtherRequestError => ReqOtherError
  end.

(** A request either raises in the transport or yields an answer. *)
Inductive http_outcome (A : Type) :=
  | HRaise (t : transport_error)
  | HResp (r : response A).
Arguments HRaise {A} t.
Arguments HResp {A} r.

(** [jose.jwt.get_unverified_header]: the header, or one of the two
    exception classes the caller tells apart. *)
Inductive header_outcome :=
  | HeaderOk (h : gmap string string)
  | HeaderJWSError
  | HeaderJWTError.

(** [jose.jwt.decode]: the payload, or the exception class in the order the
    caller's handlers test it. *)
Inductive decode_outcome :=
  | DecodeOk (payload : claims)
  | DecodeExpired     (* jose.exceptions.ExpiredSignatureError *)
  | DecodeJWKError    (* jose.exceptions.JWKError *)
  | DecodeJWTError.   (* any other jose.exceptions.JWTError *)

(** External calls, in the order they are made. *)
Inductive event :=
  | EvRefresh                       (* get_keys entered *)
  | EvLookup (kid : option string)  (* scan of the registry for a kid *)
  | EvGet (url : string)
  | EvPost (url : string) (bearer : string)
  | EvRedisSession
  | EvHget (field : string)
  | EvHsetnx (field value : string)
  | EvExpireat (when : Z).

(** The provider and the cache backend.  Every answer may depend on how many
    external calls were made before, so two calls of one run may be answered
    differently. *)
Record World := mkWorld {
  now : Z;                                   (* int(time.time()) *)
  get_discovery : nat → string → http_outcome (gmap string string);
  get_jwks : nat → string → http_outcome (gmap string (list jwk));
  post_userinfo : nat → string → string → http_outcome claims;
  redis_fails : nat → bool                   (* the call raises RedisError *)
}.

(** Library functions and helpers of other modules. *)
Record Externals := mkExternals {
  jose_get_unverified_header : string → header_outcome;
  (* jose.jwt.decode(token, key, algorithms, audience, verify_aud) *)
  jose_decode : string → list jwk → option string → string → bool →
                decode_outcome;
  (* json.loads on a cached userinfo string *)
  json_loads : string → option claims;
  (* int() on a str *)
  int_of_str : string → option Z;
  (* str() of an int, as redis-py encodes a field name *)
  str_of_int : Z → string;
  (* cnaas_nms.tools.rbac.rbac *)
  get_permissions_user :
    option (gmap string (list operation)) → option claims → list operation;
  check_if_api_call_is_permitted : operation → list operation → bool;
  (* flask_jwt_extended.get_jwt_identity *)
  get_jwt_identity_orig : string
}.

(** ** Program state *)

(** The Redis hash [REDIS_OAUTH_USERINFO_KEY] with the expiry of the key. *)
Record redis_db := mkRedis {
  rhash : gmap string string;
  rexpire : option Z
}.

Record state := mkState {
  jwks_keys : list jwk;     (* JWKSStore().keys *)
  redis : redis_db;
  trace : list event
}.

Definition set_keys (ks : list jwk) (s : state) : state :=
  mkState ks (redis s) (trace s).
Definition set_redis (r : redis_db) (s : state) : state :=
  mkState (jwks_keys s) r (trace s).
Definition log (ev : event) (s : state) : state :=
  mkState (jwks_keys s) (redis s) (trace s ++ [ev]).

(** ** The monad *)

Definition M (A : Type) : Type := state → result A * state.

Definition ret {A} (a : A) : M A := fun s => (Ret a, s).
Definition raise {A} (e : exn) : M A := fun s => (Raise e, s).
Definition bind {A B} (m : M A) (k : A → M B) : M B :=
  fun s => match m s with
           | (Ret a, s') => k a s'
           | (Raise e, s') => (Raise e, s')
           end.

(** [try: m except: h]: the handler picks the exceptions it takes. *)
Definition try_except {A} (m : M A) (h : exn → option (M A)) : M A :=
  fun s => match m s with
           | (Ret a, s') => (Ret a, s')
           | (Raise e, s') =>
               match h e with
               | Some k => k s'
               | None => (Raise e, s')
               end
           end.

Definition lift {A} (r : result A) : M A := fun s => (r, s).
Definition get_state : M state := fun s => (Ret s, s).
Definition emit (ev : event) : M unit := fun s => (Ret tt, log ev s).
(** Number of external calls made so far: the index the world answers at. *)
Definition tick : M nat := fun s => (Ret (length (trace s)), s).

Declare Scope py_scope.
Delimit Scope py_scope with py.
Notation "x <~ m ;; k" := (bind m (fun x => k))
  (at level 100, m at next level, right associativity) : py_scope.
Notation "m ;;; k" := (bind m (fun _ => k))
  (at level 100, right associativity) : py_scope.
Open Scope py_scope.

(** ** Python and library primitives *)

(** [d[k]] on a dict. *)
Definition subscript {V} (d : gmap string V) (k : string) : M V :=
  match d !! k with
  | Some v => ret v
  | None => raise KeyError
  end.

(** [d[k]] where [d] may be [None]: subscripting [None] is a [TypeError]. *)
Definition subscript_opt (d : option claims) (k : string) : M jval :=
  match d with
  | None => raise TypeError
  | Some m => subscript m k
  end.

(** [k in d] where [d] may be [None]: a [TypeError] as well. *)
Definition contains_opt (k : string) (d : option claims) : M bool :=
  match d with
  | None => raise TypeError
  | Some m => ret (bool_decide (is_Some (m !! k)))
  end.

(** [token.decoded_token] and [token.token_string]; a plain string has
    neither attribute. *)
Definition decoded_of (t : auth_result) : M (option claims) :=
  match t with
  | NoTokenNeeded => raise AttributeError
  | Tok t => ret (decoded_token t)
  end.

Definition token_string_of (t : auth_result) : M string :=
  match t with
  | NoTokenNeeded => raise AttributeError
  | Tok t => ret (token_string t)
  end.

(** Truth value of a string. *)
Definition truthy (s : string) : bool :=
  match s with
  | EmptyString => false
  | _ => true
  end.

(** [resp.raise_for_status()]. *)
Definition raise_for_status {A} (r : response A) (body : option claims)
  : M unit :=
  if (400 <=? status_code r) && (status_code r <? 600)
  then raise (ReqHTTPError body)
  else ret tt.

(** [resp.json()]. *)
Definition resp_json {A} (r : response A) : M A :=
  match json r with
  | Some a => ret a
  | None => raise ReqJSONDecodeError
  end.

(** ** The Redis hash *)

(** A key whose expiry instant has passed is gone. *)
Definition purge (t : Z) (db : redis_db) : redis_db :=
  match rexpire db with
  | Some e => if e <=? t then mkRedis ∅ None else db
  | None => db
  end.

(** HSETNX: set the field unless it exists. *)
Definition redis_hsetnx (field value : string) (db : redis_db) : redis_db :=
  match rhash db !! field with
  | Some _ => db
  | None => mkRedis (<[field := value]> (rhash db)) (rexpire db)
  end.

(** EXPIREAT ... LT: on an existing key, set the expiry only when it is
    earlier than the current one; a key without expiry counts as infinite. *)
Definition redis_expireat_lt (when : Z) (db : redis_db) : redis_db :=
  if bool_decide (rhash db = ∅) then db
  else match rexpire db with
       | Some e => if when <? e then mkRedis (rhash db) (Some when) else db
       | None => mkRedis (rhash db) (Some when)
       end.

Section Security.

Context (X : Externals) (cfg : Settings) (w : World).

(** *** requests *)

Definition answer {A} (o : http_outcome A) : M (response A) :=
  match o with
  | HRaise t => raise (exn_of_transport t)
  | HResp r => ret r
  end.

Definition session_get_discovery (url : string)
  : M (response (gmap string string)) :=
  i <~ tick ;; emit (EvGet url) ;;; answer (get_discovery w i url).

Definition session_get_jwks (url : string)
  : M (response (gmap string (list jwk))) :=
  i <~ tick ;; emit (EvGet url) ;;; answer (get_jwks w i url).

Definition session_post (url bearer : string) : M (response claims) :=
  i <~ tick ;; emit (EvPost url bearer) ;;; answer (post_userinfo w i url bearer).

(** *** redis *)

(** One command to the backend: logged, then it fails or runs on the hash
    as it is at the present instant. *)
Definition redis_call (ev : event) : M unit :=
  i <~ tick ;; emit ev ;;;
  if redis_fails w i then raise RedisError
  else fun s => (Ret tt, set_redis (purge (now w) (redis s)) s).

Definition redis_session : M unit := redis_call EvRedisSession.

Definition hget (field : string) : M (option string) :=
  redis_call (EvHget field) ;;;
  s <~ get_state ;; ret (rhash (redis s) !! field).

Definition hsetnx (field value : string) : M unit :=
  redis_call (EvHsetnx field value) ;;;
  fun s => (Ret tt, set_redis (redis_hsetnx field value (redis s)) s).

Definition expireat_lt (when : Z) : M unit :=
  redis_call (EvExpireat when) ;;;
  fun s => (Ret tt, set_redis (redis_expireat_lt when (redis s)) s).

(** The field name Redis sees for a claim value, and [int()] of one. *)
Definition field_of (v : jval) : string :=
  match v with
  | JStr s => s
  | JInt z => str_of_int X z
  end.

Definition py_int (v : jval) : M Z :=
  match v with
  | JInt z => ret z
  | JStr s => match int_of_str X s with
              | Some z => ret z
              | None => raise ValueError
              end
  end.

(** *** get_oauth_userinfo *)

(** Lines 70-78: the cache read.  [Some j] stands for the early [return]
    of the cached userinfo; [None] falls through to the request. *)
Definition read_userinfo_cache (token : auth_result) : M (option claims) :=
  try_except
    (redis_session ;;;
     d <~ decoded_of token ;;
     sub <~ subscript_opt d "sub" ;;
     cached_userinfo <~ hget (field_of sub) ;;
     match cached_userinfo with
     | Some c =>
         if truthy c
         then match json_loads X c with
              | Some j => ret (Some j)
              | None => raise JSONDecodeError
              end
         else ret None
     | None => ret None
     end)
    (fun e => match e with
              | RedisError => Some (ret None)
              | KeyError => Some (ret None)
              | _ => None
              end).

(** Lines 81-88: the discovery document. *)
Definition fetch_metadata : M (response (gmap string string)) :=
  try_except
    (metadata <~ session_get_discovery (OIDC_CONF_WELL_KNOWN_URL cfg) ;;
     raise_for_status metadata None ;;;
     ret metadata)
    (fun e => match e with
              | ReqHTTPError _ => Some (raise ConnectionError)
              | ReqConnectionError => Some (raise ConnectionError)
              | _ => None
              end).

(** Lines 96-103: the cache write. *)
Definition write_userinfo_cache (token : auth_result) (resp : response claims)
  : M unit :=
  redis_session ;;;
  d <~ decoded_of token ;;
  has_exp <~ contains_opt "exp" d ;;
  if has_exp : bool then
    sub <~ subscript_opt d "sub" ;;
    hsetnx (field_of sub) (text resp) ;;;
    exp <~ subscript_opt d "exp" ;;
    exp_i <~ py_int exp ;;
    let expire_at := Z.min exp_i (now w + 3600) in
    expireat_lt expire_at
  else ret tt.

(** Lines 92-117.  The one [try] of the source is entered in two steps, at
    the point where [resp] is bound: the request (lines 93-95) raises only
    [requests] exceptions, the cache write (lines 96-103) raises none of
    them, so every handler sits where its exception can arise.  Both
    branches of the [HTTPError] handler raise [InvalidTokenError], with
    different messages. *)
Definition request_userinfo (token : auth_result) (user_info_endpoint : string)
  : M (response claims) :=
  bearer <~ token_string_of token ;;
  try_except
    (resp <~ session_post user_info_endpoint bearer ;;
     raise_for_status resp (json resp) ;;;
     resp_json resp ;;;
     try_except
       (write_userinfo_cache token resp ;;; ret resp)
       (fun e => match e with
                 | RedisError => Some (ret resp)
                 | KeyError => Some (ret resp)
                 | _ => None
                 end))
    (fun e => match e with
              | ReqHTTPError body =>
                  match body with
                  | Some b =>
                      match b !! "error_description" with
                      | Some _ => Some (raise InvalidTokenError)
                      | None => Some (raise InvalidTokenError)
                      end
                  | None => Some (raise InvalidTokenError)
                  end
              | ReqJSONDecodeError => Some (raise InvalidTokenError)
              | _ => None
              end).

Definition get_oauth_userinfo (token : auth_result) : M (option claims) :=
  if negb (OIDC_ENABLED cfg) then ret None
  else
    cached <~ read_userinfo_cache token ;;
    match cached with
    | Some j => ret (Some j)
    | None =>
        metadata <~ fetch_metadata ;;
        mj <~ resp_json metadata ;;
        user_info_endpoint <~ subscript mj "userinfo_endpoint" ;;
        resp <~ request_userinfo token user_info_endpoint ;;
        j <~ resp_json resp ;;
        ret (Some j)
    end.

(** *** MyBearerTokenValidator *)

Definition get_keys : M unit :=
  emit EvRefresh ;;;
  try_except
    (metadata <~ session_get_discovery (OIDC_CONF_WELL_KNOWN_URL cfg) ;;
     mj <~ resp_json metadata ;;
     keys_endpoint <~ subscript mj "jwks_uri" ;;
     response <~ session_get_jwks keys_endpoint ;;
     rj <~ resp_json response ;;
     ks <~ subscript rj "keys" ;;
     fun s => (Ret tt, set_keys ks s))
    (fun e => match e with
              | KeyError => Some (raise InvalidKeyError)
              | ReqHTTPError _ => Some (raise InvalidKeyError)
              | _ => None
              end).

(** [[k for k in keys if k["kid"] == kid]]: a key without [kid] raises. *)
Fixpoint select_kid (ks : list jwk) (kid : option string)
  : result (list jwk) :=
  match ks with
  | [] => Ret []
  | k :: ks' =>
      match k !! "kid" with
      | None => Raise KeyError
      | Some v =>
          match select_kid ks' kid with
          | Ret r => Ret (if bool_decide (Some v = kid) then k :: r else r)
          | Raise e => Raise e
          end
      end
  end.

Definition lookup_kid (kid : option string) : M (list jwk) :=
  emit (EvLookup kid) ;;;
  s <~ get_state ;;
  lift (select_kid (jwks_keys s) kid).

Definition get_key (kid : option string) : M (list jwk) :=
  key <~ lookup_kid kid ;;
  if (length key =? 0)%nat then
    get_keys ;;;
    s <~ get_state ;;
    if (length (jwks_keys s) =? 0)%nat then raise InvalidKeyError
    else
      key <~ try_except (lookup_kid kid)
               (fun e => match e with
                         | KeyError => Some (raise InvalidKeyError)
                         | _ => None
                         end) ;;
      if (length key =? 0)%nat then raise InvalidKeyError
      else ret key
  else ret key.

Definition authenticate_token (token_string : string) : M auth_result :=
  if negb (OIDC_ENABLED cfg) then ret NoTokenNeeded
  else
    match jose_get_unverified_header X token_string with
    | HeaderJWSError => raise InvalidTokenError
    | HeaderJWTError =>
        let token := Tok (mkToken token_string None) in
        get_oauth_userinfo token ;;;
        ret token
    | HeaderOk unverified_header =>
        key <~ get_key (unverified_header !! "kid") ;;
        let algorithm := unverified_header !! "alg" in
        match jose_decode X token_string key algorithm
                (AUDIENCE cfg) (VERIFY_AUDIENCE cfg) with
        | DecodeExpired => raise ExpiredSignatureError
        | DecodeJWKError => raise InvalidKeyError
        | DecodeJWTError => raise InvalidTokenError
        | DecodeOk decoded_token =>
            ret (Tok (mkToken token_string (Some decoded_token)))
        end
    end.

(** [not permissions_rules]: unset or empty. *)
Definition rules_falsy (r : option (gmap string (list operation))) : bool :=
  match r with
  | None => true
  | Some m => bool_decide (m = ∅)
  end.

Definition validate_token (token : auth_result) (scopes : option (list string))
    (request : operation) : M auth_result :=
  if PERMISSIONS_DISABLED cfg then ret token
  else if match scopes with
          | Some l => bool_decide ("always_permitted" ∈ l)
          | None => false
          end
  then ret token
  else
    let permissions_rules := PERMISSIONS cfg in
    if rules_falsy permissions_rules then raise InvalidAudienceError
    else
      user_info <~ get_oauth_userinfo token ;;
      let permissions := get_permissions_user X permissions_rules user_info in
      if (length permissions =? 0)%nat then raise InvalidAudienceError
      else if check_if_api_call_is_permitted X request permissions
           then ret token
           else raise InvalidAudienceError.

(** *** Identity for audit and display *)

Definition get_jwt_identity : string :=
  if JWT_ENABLED cfg then get_jwt_identity_orig X else "admin".

Definition get_oauth_identity (current_token : auth_result) : M jval :=
  if negb (OIDC_ENABLED cfg) then ret (JStr "Admin")
  else
    userinfo <~ get_oauth_userinfo current_token ;;
    match userinfo with
    | None => raise TypeError
    | Some u =>
        if bool_decide (is_Some (u !! "email")) then subscript u "email"
        else raise KeyError
    end.

End Security.

(** * Vocabulary of the properties *)

Definition is_refresh (ev : event) : bool :=
  match ev with EvRefresh => true | _ => false end.
Definition is_lookup (ev : event) : bool :=
  match ev with EvLookup _ => true | _ => false end.

Fixpoint count_events (p : event → bool) (evs : list event) : nat :=
  match evs with
  | [] => 0%nat
  | ev :: evs' => ((if p ev then 1 else 0) + count_events p evs')%nat
  end.

(** [identified ks]: every key of [ks] has a [kid] member.  A key set
    served by a provider need not be so: [kid] is optional in a JWK. *)
Definition identified (ks : list jwk) : bool :=
  forallb (fun k : jwk => bool_decide (is_Some (k !! "kid"))) ks.

(** [has_kid kid k]: the key [k] has a [kid] member and it is [kid]. *)
Definition has_kid (kid : option string) (k : jwk) : bool :=
  bool_decide (k !! "kid" = kid) && bool_decide (is_Some (k !! "kid")).

(** [kid_absent ks kid] is two conditions at once: every key of [ks] has a
    [kid] member, and none of them has [kid].  It is stronger than "no key
    of [ks] has [kid]": a store with a key without [kid] is not
    [kid_absent] for any identifier. *)
Definition kid_absent (ks : list jwk) (kid : option string) : bool :=
  identified ks && negb (existsb (has_kid kid) ks).

(** The scope test of [validate_token]. *)
Definition always_permitted (scopes : option (list string)) : bool :=
  match scopes with
  | Some l => bool_decide ("always_permitted" ∈ l)
  | None => false
  end.

Definition is_expireat (ev : event) : bool :=
  match ev with EvExpireat _ => true | _ => false end.

(** [int(v)] as a value, and the expiry claim of a token as an integer. *)
Definition int_value (X : Externals) (v : jval) : option Z :=
  match v with
  | JInt z => Some z
  | JStr s => int_of_str X s
  end.


(** [silent s s']: between [s] and [s'] no EXPIREAT was sent. *)
Definition silent (s s' : state) : Prop :=
  ∃ evs, trace s' = trace s ++ evs
         ∧ count_events is_expireat evs = 0%nat.

(** [quiet w s s']: moreover the live content of the hash is what it was. *)
Definition quiet (w : World) (s s' : state) : Prop :=
  purge (now w) (redis s') = purge (now w) (redis s) ∧ silent s s'.


(** [raises_only P m]: whatever [m] raises satisfies [P]. *)
Definition raises_only {A} (P : exn → Prop) (m : M A) : Prop :=
  ∀ s e s', m s = (Raise e, s') → P e.

(** An exception class other than the one that signals a denial. *)
Definition not_denial (e : exn) : Prop := e ≠ InvalidAudienceError.

(** [post R m]: every run of [m] takes a state to one related by [R]. *)
Definition post {A} (R : state → state → Prop) (m : M A) : Prop :=
  ∀ s r s', m s = (r, s') → R s s'.

(** The state is left as it was. *)
Definition same (s s' : state) : Prop := s' = s.


(** * Sample scenarios *)

Definition key_of (kid : string) : jwk :=
  {[ "kid" := kid; "alg" := "RS256"; "kty" := "RSA" ]}.

(** A key as a provider may serve it, without [kid]. *)
Definition unidentified_key : jwk := {[ "kty" := "RSA" ]}.

Definition sample_header : gmap string string :=
  {[ "kid" := "k1"; "alg" := "RS256" ]}.

Definition sample_payload : claims :=
  {[ "sub" := JStr "alice"; "exp" := JInt 5000; "aud" := JStr "nms" ]}.

Definition sample_userinfo : claims :=
  {[ "sub" := JStr "alice"; "email" := JStr "user@example.com" ]}.

(** A library that reads every string but ["opaque"] as a structured token
    with header [sample_header], and verifies it under any key offered. *)
Definition sample_externals : Externals := {|
  jose_get_unverified_header := fun t =>
    if String.eqb t "opaque" then HeaderJWTError else HeaderOk sample_header;
  jose_decode := fun _ key _ _ _ =>
    match key with
    | [] => DecodeJWKError
    | _ => DecodeOk sample_payload
    end;
  json_loads := fun _ => Some sample_userinfo;
  int_of_str := fun _ => None;
  str_of_int := fun _ => "0";
  get_permissions_user := fun _ _ => [("GET", "/devices/*")];
  check_if_api_call_is_permitted := fun req perms =>
    bool_decide (req ∈ perms);
  get_jwt_identity_orig := "someone"
|}.

Definition sample_settings (oidc : bool) : Settings := {|
  JWT_ENABLED := false;
  OIDC_ENABLED := oidc;
  VERIFY_AUDIENCE := true;
  AUDIENCE := "nms";
  PERMISSIONS_DISABLED := false;
  PERMISSIONS := None;
  OIDC_CONF_WELL_KNOWN_URL := "https://idp/.well-known/openid-configuration"
|}.

Definition sample_discovery : gmap string string :=
  {[ "jwks_uri" := "https://idp/jwks";
     "userinfo_endpoint" := "https://idp/userinfo" ]}.

(** A provider that answers: its key set holds [k2] and [k3]. *)
Definition world_up : World := {|
  now := 1000;
  get_discovery := fun _ _ =>
    HResp (mkResponse 200 "" (Some sample_discovery));
  get_jwks := fun _ _ =>
    HResp (mkResponse 200 ""
             (Some {[ "keys" := [key_of "k2"; key_of "k3"] ]}));
  post_userinfo := fun _ _ _ =>
    HResp (mkResponse 200 "userinfo-of-alice" (Some sample_userinfo));
  redis_fails := fun _ => false
|}.

(** A provider that cannot be reached. *)
Definition world_down : World := {|
  now := 1000;
  get_discovery := fun _ _ => HRaise Unreachable;
  get_jwks := fun _ _ => HRaise Unreachable;
  post_userinfo := fun _ _ _ => HRaise Unreachable;
  redis_fails := fun _ => false
|}.


Definition state_with (ks : list jwk) : state :=
  mkState ks (mkRedis ∅ None) [].

(** A token that expires within the hour, and a cache that already holds
    another subject under an expiry of its own. *)
Definition short_payload : claims :=
  {[ "sub" := JStr "alice"; "exp" := JInt 2000 ]}.

Definition state_cached (expiry : Z) : state :=
  mkState [] (mkRedis {[ "bob" := "userinfo-of-bob" ]} (Some expiry)) [].

(** * Vocabulary of the further properties *)


Definition is_get (ev : event) : bool :=
  match ev with EvGet _ => true | _ => false end.
Definition key_event (ev : event) : bool :=
  is_lookup ev || is_refresh ev || is_get ev.


(** Lines 260-271: the identity function the handlers use, chosen by
    [OIDC_ENABLED] when the module is loaded. *)
Definition get_identity (X : Externals) (cfg : Settings) (w : World)
    (current_token : auth_result) : M jval :=
  if OIDC_ENABLED cfg then get_oauth_identity X cfg w current_token
  else ret (JStr (get_jwt_identity X cfg)).

(** * Linknets: [cnaas_nms/db/linknet.py] *)

(** Modelled from the spec: [Device], [DeviceState] and [DeviceType] of
    [cnaas_nms.db.device] are not part of the sources at hand, and the
    specification leaves the entity model out.  The record keeps the
    attributes [create_linknet] reads; the enumerations name the members the
    function names and carry any other member by its name. *)
Inductive DeviceState :=
  | MANAGED
  | OtherState (name : string).

Inductive DeviceType :=
  | DIST
  | CORE
  | OtherType (name : string).

Record Device := mkDevice {
  dev_id : Z;
  dev_hostname : string;
  dev_state : DeviceState;
  dev_device_type : DeviceType
}.

(** [str(device_type)] of an enumeration member. *)
Definition str_device_type (t : DeviceType) : string :=
  String.append "DeviceType."
    match t with
    | DIST => "DIST"
    | CORE => "CORE"
    | OtherType name => name
    end.

(** The [linknet] argument: an [ipaddress.IPv4Network], given by its
    network address and prefix length, or any other object. *)
Inductive linknet_arg :=
  | IPv4Network (network_address : Z) (prefixlen : Z)
  | NotIPv4Network.

(** [broadcast_address]: the network address with all host bits set. *)
Definition broadcast_address (network_address prefixlen : Z) : Z :=
  Z.lor network_address (2 ^ (32 - prefixlen) - 1).

(** [hosts()] of a /31: both addresses of the network (for a /31 the
    library makes [hosts] the iteration over all addresses). *)
Definition hosts31 (network_address : Z) : Z * Z :=
  (network_address, broadcast_address network_address 31).

(** A [Linknet] object: the attributes [create_linknet] sets and, of those
    it leaves alone, [ipv4_network] and [description]; every attribute is
    [None] on a new object. *)
Record Linknet := mkLinknet {
  ipv4_network : option string;
  device_a : option Device;
  device_a_ip : option Z;
  device_a_port : option string;
  device_b : option Device;
  device_b_ip : option Z;
  device_b_port : option string;
  description : option string
}.

Inductive linknet_error :=
  | LinknetValueError (msg : string)
  | MultipleResultsFound.    (* sqlalchemy.orm.exc *)

(** [query.filter(Device.hostname == h).one_or_none()] on the rows of the
    table [device]. *)
Definition one_or_none (rows : list Device) : linknet_error + option Device :=
  match rows with
  | [] => inr None
  | [d] => inr (Some d)
  | _ => inl MultipleResultsFound
  end.

Definition query_hostname (session : list Device) (h : string)
  : linknet_error + option Device :=
  one_or_none (List.filter (fun d => String.eqb (dev_hostname d) h) session).

Definition is_managed (s : DeviceState) : bool :=
  match s with MANAGED => true | OtherState _ => false end.

Definition is_dist_or_core (t : DeviceType) : bool :=
  match t with DIST | CORE => true | OtherType _ => false end.

(** Lines 57-66 and 67-76: one end of the link ([which] is the name the
    last message gives it).  A [Device] object counts as true. *)
Definition linknet_device (session : list Device) (h which : string)
  : linknet_error + Device :=
  match query_hostname session h with
  | inl e => inl e
  | inr None =>
      inl (LinknetValueError
             (String.append "Hostname "
                (String.append h " not found in database")))
  | inr (Some dev) =>
      if negb (is_managed (dev_state dev)) then
        inl (LinknetValueError
               (String.append "Hostname "
                  (String.append h " is not a managed device")))
      else if negb (is_dist_or_core (dev_device_type dev)) then
        inl (LinknetValueError
               (String.append
                  "Linknets can only be added between two core/dist devices ("
                  (String.append which
                     (String.append " is "
                        (String.append
                           (str_device_type (dev_device_type dev)) ")")))))
      else inr dev
  end.

(** [create_linknet].  The first component tells whether
    [pdb.set_trace()] was called. *)
Definition create_linknet (session : list Device)
    (hostname_a interface_a hostname_b interface_b : string)
    (linknet : linknet_arg) : bool * (linknet_error + Linknet) :=
  match linknet_device session hostname_a "hostname_a" with
  | inl e => (false, inl e)
  | inr dev_a =>
      match linknet_device session hostname_b "hostname_b" with
      | inl e => (false, inl e)
      | inr dev_b =>
          match linknet with
          | IPv4Network network_address prefixlen =>
              if negb (prefixlen =? 31) then
                (true, inl (LinknetValueError
                  "Linknet must be an IPv4Network with prefix length of 31"))
              else
                let '(ip_a, ip_b) := hosts31 network_address in
                (false,
                 inr {| ipv4_network := None;
                        device_a := Some dev_a;
                        device_a_ip := Some ip_a;
                        device_a_port := Some interface_a;
                        device_b := Some dev_b;
                        device_b_ip := Some ip_b;
                        device_b_port := Some interface_b;
                        description := None |})
          | NotIPv4Network =>
              (true, inl (LinknetValueError
                "Linknet must be an IPv4Network with prefix length of 31"))
          end
      end
  end.

(** A device a link may end at: the one row with this hostname, managed,
    of type dist or core. *)
Definition linkable (session : list Device) (h : string) (dev : Device)
  : Prop :=
  query_hostname session h = inr (Some dev)
  ∧ dev_state dev = MANAGED
  ∧ (dev_device_type dev = DIST ∨ dev_device_type dev = CORE).

(** * The scheduler mule: [cnaas_nms/scheduler_mule.py] *)

(** A Python value as a message carries it: what [json.loads] yields, and
    the [datetime] the loop stores under [run_date], counted in
    microseconds since 0001-01-01T00:00:00.  A float is kept as its
    literal: the loop never computes with one. *)
#[warnings="-register-all"]
Inductive pyval :=
  | PNone
  | PBool (b : bool)
  | PInt (z : Z)
  | PFloat (literal : string)
  | PStr (s : string)
  | PList (items : list pyval)
  | PDict (items : list (string * pyval))
  | PDatetime (microseconds : Z).

(** [json.loads(mule_data)]: no JSON, JSON other than an object, or an
    object. *)
Inductive mule_message :=
  | NotJSON
  | NotObject
  | Object (data : gmap string pyval).

Inductive mule_error :=
  | MuleJSONDecodeError
  | MuleTypeError
  | MuleKeyError (key : string)
  | MuleOverflowError.

(** The arguments of one [scheduler.add_job] call. *)
Record job := mkJob {
  job_func : pyval;
  job_trigger : pyval;
  job_kwargs : gmap string pyval;
  job_id : pyval;
  job_run_date : pyval
}.

(** [data['when'] and isinstance(data['when'], int)]: the seconds when the
    test holds.  [True] is an [int] and counts as 1. *)
Definition when_seconds (when : pyval) : option Z :=
  match when with
  | PInt z => if z =? 0 then None else Some z
  | PBool true => Some 1
  | _ => None
  end.

(** [datetime.timedelta(seconds=n)] in microseconds; its days must not
    exceed 999999999 in magnitude. *)
Definition timedelta_seconds (n : Z) : option Z :=
  if (-999999999 <=? n / 86400) && (n / 86400 <=? 999999999)
  then Some (n * 1000000)
  else None.

(** [datetime + timedelta]; the result must lie between [datetime.min] and
    [datetime.max]. *)
Definition datetime_add (t d : Z) : option Z :=
  if (0 <=? t + d) && (t + d <? 3652059 * 86400000000)
  then Some (t + d)
  else None.

Definition run_date_in (utcnow n : Z) : option Z :=
  match timedelta_seconds n with
  | Some d => datetime_add utcnow d
  | None => None
  end.

(** [k not in ['func', 'trigger', 'id', 'run_date']]. *)
Definition reserved (k : string) : bool :=
  bool_decide (k ∈ ["func"; "trigger"; "id"; "run_date"]).

(** Lines 44-46: a relative [when] becomes an absolute [run_date]. *)
Definition resolve_when (utcnow : Z) (data : gmap string pyval)
  : mule_error + gmap string pyval :=
  match data !! "when" with
  | None => inl (MuleKeyError "when")
  | Some when =>
      match when_seconds when with
      | Some n =>
          match run_date_in utcnow n with
          | Some t =>
              inr (delete "when" (<["run_date" := PDatetime t]> data))
          | None => inl MuleOverflowError
          end
      | None => inr data
      end
  end.

Definition item (data : gmap string pyval) (k : string)
  : mule_error + pyval :=
  match data !! k with
  | Some v => inr v
  | None => inl (MuleKeyError k)
  end.

(** Lines 42-52: one turn of the loop on the message received, up to the
    call of [scheduler.add_job], whose arguments are returned. *)
Definition handle_message (utcnow : Z) (msg : mule_message)
  : mule_error + job :=
  match msg with
  | NotJSON => inl MuleJSONDecodeError
  | NotObject => inl MuleTypeError
  | Object data =>
      match resolve_when utcnow data with
      | inl e => inl e
      | inr data =>
          let kwargs :=
            filter (fun kv : string * pyval => reserved kv.1 = false) data in
          match item data "func" with
          | inl e => inl e
          | inr func =>
              match item data "trigger" with
              | inl e => inl e
              | inr trigger =>
                  match item data "id" with
                  | inl e => inl e
                  | inr id =>
                      match item data "run_date" with
                      | inl e => inl e
                      | inr run_date =>
                          inr (mkJob func trigger kwargs id run_date)
                      end
                  end
              end
          end
      end
  end.

Inductive mule_event :=
  | MulePrint (s : string)
  | MuleSchedulerStart
  | MuleLoadPlugins
  | MuleAddJob (j : job).

(** The [while True] loop on the messages received so far, each with the
    instant [utcnow()] gives when it is handled: the jobs added, and the
    exception that ended the loop if one did ([None]: the loop waits for
    the next message). *)
Fixpoint serve (msgs : list (Z * mule_message))
  : list mule_event * option mule_error :=
  match msgs with
  | [] => ([], None)
  | (utcnow, msg) :: rest =>
      match handle_message utcnow msg with
      | inl e => ([], Some e)
      | inr j => let '(evs, r) := serve rest in (MuleAddJob j :: evs, r)
      end
  end.

(** [main_loop]; [uwsgi] tells whether [import uwsgi] succeeds. *)
Definition main_loop (uwsgi : bool) (msgs : list (Z * mule_message))
  : list mule_event * option mule_error :=
  if uwsgi then
    let '(evs, r) := serve msgs in
    ([MulePrint "Running scheduler in uwsgi mule"; MuleSchedulerStart;
      MuleLoadPlugins] ++ evs, r)
  else ([MulePrint "Error, not running in uwsgi"], None).

(** * Sample scenarios of the further properties *)

Definition world_unidentified_key : World := {|
  now := 1000;
  get_discovery := fun _ _ =>
    HResp (mkResponse 200 "" (Some sample_discovery));
  get_jwks := fun _ _ =>
    HResp (mkResponse 200 "" (Some {[ "keys" := [unidentified_key] ]}));
  post_userinfo := fun _ _ _ =>
    HResp (mkResponse 200 "userinfo-of-alice" (Some sample_userinfo));
  redis_fails := fun _ => false
|}.

(** The provider answers, the cache backend is down. *)
Definition world_cache_down : World := {|
  now := 1000;
  get_discovery := fun _ _ =>
    HResp (mkResponse 200 "" (Some sample_discovery));
  get_jwks := fun _ _ =>
    HResp (mkResponse 200 ""
             (Some {[ "keys" := [key_of "k2"; key_of "k3"] ]}));
  post_userinfo := fun _ _ _ =>
    HResp (mkResponse 200 "userinfo-of-alice" (Some sample_userinfo));
  redis_fails := fun _ => true
|}.

(** A library for which every token has expired. *)
Definition expired_externals : Externals := {|
  jose_get_unverified_header := fun _ => HeaderOk sample_header;
  jose_decode := fun _ _ _ _ _ => DecodeExpired;
  json_loads := fun _ => Some sample_userinfo;
  int_of_str := fun _ => None;
  str_of_int := fun _ => "0";
  get_permissions_user := fun _ _ => [];
  check_if_api_call_is_permitted := fun _ _ => false;
  get_jwt_identity_orig := "Admin"
|}.

(** JWT checking on, provider-based verification off. *)
Definition jwt_settings : Settings := {|
  JWT_ENABLED := true;
  OIDC_ENABLED := false;
  VERIFY_AUDIENCE := false;
  AUDIENCE := "";
  PERMISSIONS_DISABLED := false;
  PERMISSIONS := None;
  OIDC_CONF_WELL_KNOWN_URL := ""
|}.

(** The cache holds the userinfo of alice, live at instant 1000. *)
Definition state_alice_cached : state :=
  mkState [] (mkRedis {[ "alice" := "userinfo-of-alice" ]} (Some 3000)) [].

Definition sample_token : Token := mkToken "token" (Some sample_payload).

Definition sample_devices : list Device :=
  [ mkDevice 1 "dist1" MANAGED DIST;
    mkDevice 2 "core1" MANAGED CORE;
    mkDevice 3 "access1" MANAGED (OtherType "ACCESS") ].

(** 10.0.0.0/31 *)
Definition sample_network : Z := 167772160.

Definition sample_linknet : Linknet := {|
  ipv4_network := None;
  device_a := Some (mkDevice 1 "dist1" MANAGED DIST);
  device_a_ip := Some 167772160;
  device_a_port := Some "Ethernet1";
  device_b := Some (mkDevice 2 "core1" MANAGED CORE);
  device_b_ip := Some 167772161;
  device_b_port := Some "Ethernet2";
  description := None
|}.

Definition sample_message : gmap string pyval :=
  {[ "when" := PInt 60; "func" := PStr "cnaas_nms.confpush.sync_devices";
     "trigger" := PStr "date"; "id" := PStr "job1";
     "hostname" := PStr "sw1" ]}.

Definition sample_utcnow : Z := 63800000000000000.

Definition sample_job : job :=
  mkJob (PStr "cnaas_nms.confpush.sync_devices") (PStr "date")
    {[ "hostname" := PStr "sw1" ]} (PStr "job1")
    (PDatetime 63800000060000000).

(** * Reasoning about runs *)

Lemma bind_inv {A B} (m : M A) (k : A → M B) s r s' :
  bind m k s = (r, s') →
  (∃ a s1, m s = (Ret a, s1) ∧ k a s1 = (r, s')) ∨
  (∃ e, m s = (Raise e, s') ∧ r = Raise e).
Proof.
  unfold bind. destruct (m s) as [[a|e] s1]; intros H.
  - left. eauto.
  - right. inversion H; subst. eauto.
Qed.

Lemma try_except_inv {A} (m : M A) (h : exn → option (M A)) s r s' :
  try_except m h s = (r, s') →
  (∃ a, m s = (Ret a, s') ∧ r = Ret a) ∨
  (∃ e s1, m s = (Raise e, s1) ∧
           match h e with
           | Some k => k s1 = (r, s')
           | None => r = Raise e ∧ s' = s1
           end).
Proof.
  unfold try_except. destruct (m s) as [[a|e] s1]; intros H.
  - left. inversion H; subst. eauto.
  - right. exists e, s1. split; [done|].
    destruct (h e); [done|]. by inversion H.
Qed.

Lemma bind_ret {A B} (m : M A) (k : A → M B) s a s1 :
  m s = (Ret a, s1) → bind m k s = k a s1.
Proof. unfold bind. by intros ->. Qed.

Lemma bind_raise {A B} (m : M A) (k : A → M B) s e s1 :
  m s = (Raise e, s1) → bind m k s = (Raise e, s1).
Proof. unfold bind. by intros ->. Qed.

Create HintDb py.
#[local] Hint Unfold subscript subscript_opt contains_opt decoded_of
  token_string_of raise_for_status resp_json answer session_get_discovery
  session_get_jwks session_post redis_call redis_session hget hsetnx
  expireat_lt py_int read_userinfo_cache fetch_metadata write_userinfo_cache
  request_userinfo get_oauth_userinfo get_keys lookup_kid get_key
  authenticate_token validate_token get_oauth_identity : py.

(** Split the innermost [match] of a hypothesis on its scrutinee. *)
Ltac split_match H :=
  match type of H with
  | context [match ?x with _ => _ end] =>
      lazymatch x with
      | context [match _ with _ => _ end] => fail
      | _ => destruct x eqn:?; simpl in H
      end
  end.

(** One step of taking a run apart. *)
Ltac run_step :=
  match goal with
  | H : bind _ _ _ = (_, _) |- _ =>
      apply bind_inv in H as [(? & ? & ? & H) | (? & H & ?)]
  | H : try_except _ _ _ = (_, _) |- _ =>
      apply try_except_inv in H as [(? & H & ?) | (? & ? & ? & H)];
      simpl in H
  | H : ret _ _ = (_, _) |- _ => unfold ret in H
  | H : raise _ _ = (_, _) |- _ => unfold raise in H
  | H : emit _ _ = (_, _) |- _ => unfold emit in H
  | H : tick _ = (_, _) |- _ => unfold tick in H
  | H : lift _ _ = (_, _) |- _ => unfold lift in H
  | H : get_state _ = (_, _) |- _ => unfold get_state in H
  | H : (_, _) = (_, _) |- _ => inversion H; clear H; subst
  | H : _ ∧ _ |- _ => destruct H
  | H : Raise _ = Raise _ |- _ => inversion H; clear H; subst
  | H : Ret _ = Ret _ |- _ => inversion H; clear H; subst
  | H : Ret _ = Raise _ |- _ => discriminate H
  | H : Raise _ = Ret _ |- _ => discriminate H
  | t : transport_error |- _ => destruct t
  | H : _ |- _ => split_match H
  end.

Ltac run_inv := autounfold with py in *; simpl in *; repeat (run_step; simpl in *).

(** * Key registry: refresh and lookup *)

Lemma select_kid_identified ks kid :
  identified ks = true →
  select_kid ks kid = Ret (List.filter (has_kid kid) ks).
Proof.
  induction ks as [|k ks IH]; simpl; [done|].
  intros [Hk Hks]%andb_prop. rewrite (IH Hks). unfold has_kid.
  destruct (k !! "kid") as [v|] eqn:Hv; simpl in *; [|done].
  rewrite andb_true_r.
  destruct (bool_decide (Some v = kid)) eqn:E1;
    destruct (bool_decide (Some v = kid)) eqn:E2; congruence.
Qed.

Lemma filter_none_nil {A} (p : A → bool) (l : list A) :
  existsb p l = false → List.filter p l = [].
Proof.
  induction l as [|a l IH]; simpl; [done|].
  intros [-> Hl]%orb_false_elim. auto.
Qed.

Lemma filter_some_cons {A} (p : A → bool) (l : list A) :
  existsb p l = true → ∃ a l', List.filter p l = a :: l'.
Proof.
  induction l as [|a l IH]; simpl; [done|].
  destruct (p a); simpl; eauto.
Qed.

Lemma select_kid_absent ks kid :
  kid_absent ks kid = true → select_kid ks kid = Ret [].
Proof.
  intros [Hid Hno]%andb_prop. apply negb_true_iff in Hno.
  rewrite (select_kid_identified _ _ Hid). by rewrite filter_none_nil.
Qed.

(** A refresh logs its own entry and after it nothing but requests. *)
Lemma get_keys_trace cfg w s r s' :
  get_keys cfg w s = (r, s') →
  ∃ evs, trace s' = trace s ++ EvRefresh :: evs
         ∧ count_events is_refresh evs = 0%nat
         ∧ count_events is_lookup evs = 0%nat.
Proof.
  intros H. run_inv; rewrite <- ?app_assoc; simpl;
    eexists; (split; [reflexivity|]); by simpl.
Qed.

(** C9: a refresh that fails, at whichever step and with whichever
    exception (the discovery document or the key set cannot be fetched, an
    answer is not JSON, [jwks_uri] or [keys] is missing), leaves the
    registry holding exactly the keys it held before the attempt. *)
Theorem get_keys_failure_keeps_snapshot cfg w s e s' :
  get_keys cfg w s = (Raise e, s') →
  jwks_keys s' = jwks_keys s.
Proof. intros H. run_inv; done. Qed.

Lemma count_events_app p evs1 evs2 :
  count_events p (evs1 ++ evs2)
  = (count_events p evs1 + count_events p evs2)%nat.
Proof. induction evs1 as [|ev evs1 IH]; simpl; [done|]. rewrite IH. lia. Qed.

Lemma select_kid_raise ks kid e : select_kid ks kid = Raise e → e = KeyError.
Proof.
  induction ks as [|k ks IH]; simpl; [done|].
  destruct (k !! "kid"); [|congruence].
  destruct (select_kid ks kid); [done|].
  intros [= <-]. by apply IH.
Qed.

Lemma select_kid_unidentified ks kid k :
  k ∈ ks → k !! "kid" = None → select_kid ks kid = Raise KeyError.
Proof.
  intros Hin Hk. induction ks as [|k0 ks IH]; [by apply elem_of_nil in Hin|].
  apply elem_of_cons in Hin as [<-|Hin]; simpl.
  - by rewrite Hk.
  - rewrite (IH Hin). by destruct (k0 !! "kid").
Qed.

Lemma unidentified_entry ks :
  identified ks = false → ∃ k, k ∈ ks ∧ k !! "kid" = None.
Proof.
  induction ks as [|k0 ks IH]; simpl; [done|].
  destruct (k0 !! "kid") as [v|] eqn:Hv; simpl.
  - intros H. destruct (IH H) as (k & Hin & Hk).
    exists k. split; [by apply elem_of_cons; right|done].
  - intros _. exists k0. split; [apply list_elem_of_here|done].
Qed.

(** The scan of line 139, in full: the keys with the identifier when every
    key has a [kid] member, a [KeyError] when one has not. *)
Lemma select_kid_scan ks kid :
  select_kid ks kid
  = if identified ks then Ret (List.filter (has_kid kid) ks)
    else Raise KeyError.
Proof.
  destruct (identified ks) eqn:Hid.
  - by apply select_kid_identified.
  - destruct (unidentified_entry _ Hid) as (k & Hin & Hk).
    by apply (select_kid_unidentified _ _ k).
Qed.

(** The run of [get_key] when its first scan meets a key without [kid]:
    the [KeyError] of line 139 is outside every [try]. *)
Lemma get_key_first_scan_raises cfg w kid s k :
  k ∈ jwks_keys s → k !! "kid" = None →
  get_key cfg w kid s = (Raise KeyError, log (EvLookup kid) s).
Proof.
  intros Hin Hk.
  unfold get_key, lookup_kid, bind, emit, get_state, lift. simpl.
  by rewrite (select_kid_unidentified _ _ _ Hin Hk).
Qed.

(** The run of [get_key] once the first scan has found nothing. *)
Lemma get_key_absent_run cfg w kid s :
  select_kid (jwks_keys s) kid = Ret [] →
  get_key cfg w kid s =
  match get_keys cfg w (log (EvLookup kid) s) with
  | (Raise e, s1) => (Raise e, s1)
  | (Ret _, s1) =>
      if (length (jwks_keys s1) =? 0)%nat then (Raise InvalidKeyError, s1)
      else match select_kid (jwks_keys s1) kid with
           | Ret (k :: ks) => (Ret (k :: ks), log (EvLookup kid) s1)
           | _ => (Raise InvalidKeyError, log (EvLookup kid) s1)
           end
  end.
Proof.
  intros Hsel.
  unfold get_key, lookup_kid, bind, try_except, emit, get_state, lift, raise,
    ret.
  simpl. rewrite Hsel. simpl.
  destruct (get_keys cfg w (log (EvLookup kid) s)) as [[[]|e] s1]; [|done].
  destruct (length (jwks_keys s1) =? 0)%nat; [done|].
  destruct (select_kid (jwks_keys s1) kid) as [[|k ks]|e] eqn:Hs; try done.
  by apply select_kid_raise in Hs as ->.
Qed.

(** X22: when every key of the registry has a [kid] member and none of
    them has the token's identifier, [get_key] scans the registry, calls
    [get_keys] exactly once and scans at most once more.  If the refresh
    itself raises, so does [get_key], with the same exception.  If the
    refresh succeeds, [get_key] returns the keys of the new registry that
    have the identifier when every key there has a [kid] member and one of
    them has the identifier, and raises [InvalidKeyError] (the
    specification's KeyNotFound) in every other case. *)
Theorem get_key_absent_refreshes_once cfg w kid s r s' :
  identified (jwks_keys s) = true →
  existsb (has_kid kid) (jwks_keys s) = false →
  get_key cfg w kid s = (r, s') →
  (∃ evs, trace s' = trace s ++ EvLookup kid :: EvRefresh :: evs
          ∧ count_events is_refresh evs = 0%nat
          ∧ (count_events is_lookup evs ≤ 1)%nat)
  ∧ match get_keys cfg w (log (EvLookup kid) s) with
    | (Raise e, s1) => r = Raise e ∧ s' = s1
    | (Ret _, s1) =>
        jwks_keys s' = jwks_keys s1 ∧
        r = if identified (jwks_keys s1)
               && existsb (has_kid kid) (jwks_keys s1)
            then Ret (List.filter (has_kid kid) (jwks_keys s1))
            else Raise InvalidKeyError
    end.
Proof.
  intros Hid Hno H.
  assert (Habs : select_kid (jwks_keys s) kid = Ret []).
  { by rewrite select_kid_scan, Hid, filter_none_nil. }
  rewrite (get_key_absent_run _ _ _ _ Habs) in H.
  destruct (get_keys cfg w (log (EvLookup kid) s)) as [[[]|e] s1] eqn:Hk;
    destruct (get_keys_trace _ _ _ _ _ Hk) as (evs & Htr & Hr & Hlk);
    simpl in Htr.
  - destruct (length (jwks_keys s1) =? 0)%nat eqn:Hlen.
    + inversion H; subst. split.
      * exists evs. rewrite Htr, <- app_assoc. simpl. split; [done|]. lia.
      * split; [done|]. apply Nat.eqb_eq in Hlen.
        by destruct (jwks_keys s').
    + assert (Hev : ∃ evs', trace (log (EvLookup kid) s1)
                  = trace s ++ EvLookup kid :: EvRefresh :: evs'
                  ∧ count_events is_refresh evs' = 0%nat
                  ∧ (count_events is_lookup evs' ≤ 1)%nat).
      { exists (evs ++ [EvLookup kid]). simpl.
        rewrite Htr, <- !app_assoc, !count_events_app. simpl.
        split; [done|]. lia. }
      rewrite select_kid_scan in H.
      destruct (identified (jwks_keys s1)); simpl.
      * destruct (existsb (has_kid kid) (jwks_keys s1)) eqn:Hex.
        -- destruct (filter_some_cons _ _ Hex) as (k & ks & Hf).
           rewrite Hf in H |- *. by inversion H; subst.
        -- rewrite (filter_none_nil _ _ Hex) in H. by inversion H; subst.
      * by inversion H; subst.
  - inversion H; subst. split; [|done].
    exists evs. rewrite Htr, <- app_assoc. simpl. split; [done|]. lia.
Qed.

Lemma get_key_absent_refreshes_once_witness :
  identified [key_of "k2"] = true ∧
  existsb (has_kid (Some "k1")) [key_of "k2"] = false ∧
  ∃ evs,
    trace (snd (get_key (sample_settings true) world_up (Some "k1")
                  (state_with [key_of "k2"])))
    = [] ++ EvLookup (Some "k1") :: EvRefresh :: evs
    ∧ count_events is_refresh evs = 0%nat
    ∧ (count_events is_lookup evs ≤ 1)%nat.
Proof.
  split; [reflexivity|]. split; [reflexivity|].
  apply (get_key_absent_refreshes_once (sample_settings true) world_up
           (Some "k1") (state_with [key_of "k2"]) _ _ eq_refl eq_refl
           (surjective_pairing _)).
Defined.

Lemma get_keys_failure_keeps_snapshot_witness :
  jwks_keys (snd (get_keys (sample_settings true) world_down
                    (state_with [key_of "k1"])))
  = [key_of "k1"].
Proof.
  apply (get_keys_failure_keeps_snapshot (sample_settings true) world_down
           (state_with [key_of "k1"]) ReqConnectionError).
  vm_compute. reflexivity.
Defined.

(** C3, the code at the failing input: the registry holds a key without
    [kid] (the member is optional in a JWK) and no key with the token's
    identifier.  The first scan, [k["kid"] == kid] at line 139, is outside
    every [try]: it raises a [KeyError] that nothing catches.  [get_key]
    makes no refresh and no second scan, and fails with [KeyError], not
    with [InvalidKeyError].  The second scan (lines 146-150) guards the
    same expression with [except KeyError]. *)
Theorem get_key_unidentified_entry cfg w kid s k :
  existsb (has_kid kid) (jwks_keys s) = false →
  k ∈ jwks_keys s → k !! "kid" = None →
  get_key cfg w kid s = (Raise KeyError, log (EvLookup kid) s)
  ∧ trace (log (EvLookup kid) s) = trace s ++ [EvLookup kid]
  ∧ count_events is_refresh (trace (log (EvLookup kid) s))
    = count_events is_refresh (trace s).
Proof.
  intros _ Hin Hk. split; [by apply (get_key_first_scan_raises _ _ _ _ k)|].
  split; [done|]. simpl. rewrite count_events_app. simpl. lia.
Qed.

Lemma get_key_unidentified_entry_witness :
  get_key (sample_settings true) world_up (Some "k1")
    (state_with [unidentified_key; key_of "k2"])
  = (Raise KeyError,
     log (EvLookup (Some "k1")) (state_with [unidentified_key; key_of "k2"]))
  ∧ trace (log (EvLookup (Some "k1"))
             (state_with [unidentified_key; key_of "k2"]))
    = trace (state_with [unidentified_key; key_of "k2"])
      ++ [EvLookup (Some "k1")]
  ∧ count_events is_refresh
      (trace (log (EvLookup (Some "k1"))
                (state_with [unidentified_key; key_of "k2"])))
    = count_events is_refresh
        (trace (state_with [unidentified_key; key_of "k2"])).
Proof.
  apply (get_key_unidentified_entry (sample_settings true) world_up
           (Some "k1") (state_with [unidentified_key; key_of "k2"])
           unidentified_key eq_refl).
  - apply list_elem_of_here.
  - reflexivity.
Defined.

(** The run of [get_key] when the provider cannot be reached. *)
Lemma get_key_unreachable cfg w kid s :
  kid_absent (jwks_keys s) kid = true →
  get_discovery w (length (trace s) + 2)%nat (OIDC_CONF_WELL_KNOWN_URL cfg)
  = HRaise Unreachable →
  get_key cfg w kid s
  = (Raise ReqConnectionError,
     log (EvGet (OIDC_CONF_WELL_KNOWN_URL cfg))
       (log EvRefresh (log (EvLookup kid) s))).
Proof.
  intros Habs Hdown. apply select_kid_absent in Habs.
  rewrite (get_key_absent_run _ _ _ _ Habs).
  unfold get_keys, session_get_discovery, bind, try_except, emit, tick,
    answer, raise.
  simpl. rewrite !length_app. simpl.
  replace (length (trace s) + 1 + 1)%nat with (length (trace s) + 2)%nat
    by lia.
  by rewrite Hdown.
Qed.

(** C4, the code at the failing input: the identifier is absent from the
    registry and the discovery document cannot be fetched because the
    provider is unreachable.  [get_keys] turns only [KeyError] and
    [HTTPError] into [InvalidKeyError]; the [ConnectionError] of [requests]
    passes through [get_key] and [authenticate_token] unchanged, so
    validation fails with that exception and not with [InvalidKeyError]. *)
Theorem authenticate_token_unreachable_refresh X cfg w tok h s :
  OIDC_ENABLED cfg = true →
  jose_get_unverified_header X tok = HeaderOk h →
  kid_absent (jwks_keys s) (h !! "kid") = true →
  get_discovery w (length (trace s) + 2)%nat (OIDC_CONF_WELL_KNOWN_URL cfg)
  = HRaise Unreachable →
  authenticate_token X cfg w tok s
  = (Raise ReqConnectionError,
     log (EvGet (OIDC_CONF_WELL_KNOWN_URL cfg))
       (log EvRefresh (log (EvLookup (h !! "kid")) s))).
Proof.
  intros Hon Hh Habs Hdown. unfold authenticate_token.
  rewrite Hon, Hh. simpl.
  by rewrite (bind_raise _ _ _ _ _ (get_key_unreachable _ _ _ _ Habs Hdown)).
Qed.

Lemma authenticate_token_unreachable_refresh_witness :
  fst (authenticate_token sample_externals (sample_settings true) world_down
         "token" (state_with []))
  = Raise ReqConnectionError.
Proof.
  rewrite (authenticate_token_unreachable_refresh sample_externals
             (sample_settings true) world_down "token" sample_header
             (state_with []) eq_refl eq_refl eq_refl eq_refl).
  reflexivity.
Defined.

(** * Token verification *)

(** C1, the code at the failing input: provider-based verification is
    enabled and the registry holds a key without [kid] (the member is
    optional in a JWK) beside the keys it can look up.  Whatever the token,
    be it signed by a key of the registry, unexpired and for the configured
    audience, the scan of line 139 raises a [KeyError] that neither
    [get_key] nor [authenticate_token] catches: validation fails with
    [KeyError] before [jose.jwt.decode] is called, and no [Token] is
    returned. *)
Theorem authenticate_token_unidentified_key X cfg w tok h k s :
  OIDC_ENABLED cfg = true →
  jose_get_unverified_header X tok = HeaderOk h →
  k ∈ jwks_keys s → k !! "kid" = None →
  authenticate_token X cfg w tok s
  = (Raise KeyError, log (EvLookup (h !! "kid")) s).
Proof.
  intros Hon Hh Hin Hk. unfold authenticate_token.
  rewrite Hon, Hh. simpl.
  by rewrite (bind_raise _ _ _ _ _ (get_key_first_scan_raises _ _ _ _ _ Hin Hk)).
Qed.

(** The failing input: the identifier [k1] of the token is in the registry
    and [jose.jwt.decode] accepts the token under the keys that have it. *)
Lemma authenticate_token_unidentified_key_witness :
  existsb (has_kid (sample_header !! "kid")) [unidentified_key; key_of "k1"]
  = true
  ∧ jose_decode sample_externals "token"
      (List.filter (has_kid (sample_header !! "kid"))
         [unidentified_key; key_of "k1"])
      (sample_header !! "alg") "nms" true
    = DecodeOk sample_payload
  ∧ authenticate_token sample_externals (sample_settings true) world_up
      "token" (state_with [unidentified_key; key_of "k1"])
    = (Raise KeyError,
       log (EvLookup (sample_header !! "kid"))
         (state_with [unidentified_key; key_of "k1"])).
Proof.
  split; [reflexivity|]. split; [reflexivity|].
  apply (authenticate_token_unidentified_key sample_externals
           (sample_settings true) world_up "token" sample_header
           unidentified_key (state_with [unidentified_key; key_of "k1"])
           eq_refl eq_refl).
  - apply list_elem_of_here.
  - reflexivity.
Defined.

(** C2, the code at the failing input: the header of the token cannot be
    parsed ([JWTError]) and the cache backend is up.  The cache read is not
    skipped: it subscripts the absent claims map, [None["sub"]], which
    raises a [TypeError] that neither handler of the block takes.  The
    provider is never asked, and the caller gets neither the token nor an
    [InvalidTokenError]. *)
Theorem authenticate_token_opaque_type_error X cfg w tok s :
  OIDC_ENABLED cfg = true →
  jose_get_unverified_header X tok = HeaderJWTError →
  redis_fails w (length (trace s)) = false →
  authenticate_token X cfg w tok s
  = (Raise TypeError,
     set_redis (purge (now w) (redis s)) (log EvRedisSession s)).
Proof.
  intros Hon Hh Hup.
  unfold authenticate_token, get_oauth_userinfo, read_userinfo_cache,
    redis_session, redis_call.
  rewrite Hon, Hh.
  unfold bind, try_except, tick, emit, decoded_of, subscript_opt, raise, ret.
  simpl. by rewrite Hup.
Qed.

Lemma authenticate_token_opaque_type_error_witness :
  fst (authenticate_token sample_externals (sample_settings true) world_up
         "opaque" (state_with [key_of "k1"]))
  = Raise TypeError.
Proof.
  rewrite (authenticate_token_opaque_type_error sample_externals
             (sample_settings true) world_up "opaque"
             (state_with [key_of "k1"]) eq_refl eq_refl eq_refl).
  reflexivity.
Defined.

(** * Permission check *)

(** C5: whatever the token, its claims, the settings and the rule table
    (empty or unset included), a request whose scopes include
    ["always_permitted"] is allowed: [validate_token] returns the token,
    and it does so without a single call to the cache or the provider. *)
Theorem validate_token_always_permitted X cfg w token l request s :
  "always_permitted" ∈ l →
  validate_token X cfg w token (Some l) request s = (Ret token, s).
Proof.
  intros Hin. unfold validate_token.
  destruct (PERMISSIONS_DISABLED cfg); [done|].
  by case_bool_decide.
Qed.

Lemma validate_token_always_permitted_witness :
  validate_token sample_externals (sample_settings true) world_down
    (Tok (mkToken "token" None)) (Some ["read"; "always_permitted"])
    ("DELETE", "/devices/42") (state_with [])
  = (Ret (Tok (mkToken "token" None)), state_with []).
Proof.
  apply validate_token_always_permitted. set_solver.
Defined.

(** C6, as the code has it: with permissions not disabled and the rule
    table empty or unset, every request whose scopes do not include
    ["always_permitted"] is denied with [InvalidAudienceError], before any
    identity is resolved. *)
Theorem validate_token_no_rules_denies X cfg w token scopes request s :
  PERMISSIONS_DISABLED cfg = false →
  rules_falsy (PERMISSIONS cfg) = true →
  always_permitted scopes = false →
  validate_token X cfg w token scopes request s
  = (Raise InvalidAudienceError, s).
Proof.
  intros Hoff Hnone Hsc. unfold validate_token, always_permitted in *.
  by rewrite Hoff, Hsc, Hnone.
Qed.

Lemma validate_token_no_rules_denies_witness :
  validate_token sample_externals (sample_settings true) world_up
    (Tok (mkToken "token" (Some sample_payload))) (Some ["read"])
    ("GET", "/devices/42") (state_with [])
  = (Raise InvalidAudienceError, state_with []).
Proof.
  apply validate_token_no_rules_denies; vm_compute; reflexivity.
Defined.

(** C6 as stated fails: permissions are not disabled, no rule table is
    set, and the request is allowed all the same, because the scope test
    comes before the rule table is looked at. *)
Lemma validate_token_no_rules_still_allows :
  PERMISSIONS_DISABLED (sample_settings true) = false
  ∧ rules_falsy (PERMISSIONS (sample_settings true)) = true
  ∧ validate_token sample_externals (sample_settings true) world_up
      (Tok (mkToken "token" (Some sample_payload)))
      (Some ["always_permitted"]) ("GET", "/devices/42") (state_with [])
    = (Ret (Tok (mkToken "token" (Some sample_payload))), state_with []).
Proof. repeat split; vm_compute; reflexivity. Qed.

(** * Error kinds *)

Section RaisesOnly.
Context (P : exn → Prop).

Lemma raises_only_ret {A} (a : A) : raises_only P (ret a).
Proof. by intros s e s' [=]. Qed.

Lemma raises_only_raise {A} e : P e → raises_only P (@raise A e).
Proof. intros He s e' s' [= <- _]. done. Qed.

Lemma raises_only_bind {A B} (m : M A) (k : A → M B) :
  raises_only P m → (∀ a, raises_only P (k a)) →
  raises_only P (bind m k).
Proof.
  intros Hm Hk s e s' H.
  apply bind_inv in H as [(a & s1 & _ & H) | (e1 & H & [= ->])].
  - by eapply Hk.
  - by eapply Hm.
Qed.

Lemma raises_only_try {A} (m : M A) (h : exn → option (M A)) :
  raises_only P m →
  (∀ e k, h e = Some k → raises_only P k) →
  raises_only P (try_except m h).
Proof.
  intros Hm Hh s e s' H.
  apply try_except_inv in H as [(a & _ & [=]) | (e1 & s1 & Hb & H)].
  destruct (h e1) as [k|] eqn:Hk.
  - by eapply Hh.
  - destruct H as [[= ->] _]. by eapply Hm.
Qed.

Lemma raises_only_emit ev : raises_only P (emit ev).
Proof. by intros s e s' [=]. Qed.

Lemma raises_only_tick : raises_only P tick.
Proof. by intros s e s' [=]. Qed.

Lemma raises_only_get_state : raises_only P get_state.
Proof. by intros s e s' [=]. Qed.

Lemma raises_only_select ks kid :
  P KeyError → raises_only P (lift (select_kid ks kid)).
Proof.
  intros HP s e s' [= H _]. by apply select_kid_raise in H as ->.
Qed.
End RaisesOnly.

(** Walks through a computation, leaving the raised exceptions to [tac]. *)
Ltac raises_walk tac :=
  repeat first
    [ match goal with
      | |- raises_only _ (raise (exn_of_transport ?t)) => destruct t; simpl
      end
    | apply raises_only_ret
    | apply raises_only_emit
    | apply raises_only_tick
    | apply raises_only_get_state
    | apply raises_only_select; tac
    | apply raises_only_raise; tac
    | apply raises_only_bind; [|intros ?]
    | apply raises_only_try;
        [|let e := fresh "e" in let k := fresh "k" in
          intros e k; destruct e; simpl; repeat case_match; intros [= <-]]
    | match goal with
      | |- raises_only _ (match ?x with _ => _ end) => destruct x
      | |- raises_only _ (fun s => (Ret _, _)) => by intros ? ? ? [=]
      end ].

Lemma get_oauth_userinfo_never_denial X cfg w token :
  raises_only not_denial (get_oauth_userinfo X cfg w token).
Proof.
  autounfold with py. raises_walk ltac:(unfold not_denial; congruence).
Qed.

Lemma get_key_never_denial cfg w kid :
  raises_only not_denial (get_key cfg w kid).
Proof.
  autounfold with py. raises_walk ltac:(unfold not_denial; congruence).
Qed.

Lemma authenticate_token_never_denial X cfg w tok :
  raises_only not_denial (authenticate_token X cfg w tok).
Proof.
  unfold authenticate_token.
  destruct (negb (OIDC_ENABLED cfg)); [apply raises_only_ret|].
  destruct (jose_get_unverified_header X tok).
  - apply raises_only_bind; [apply get_key_never_denial|intros key].
    raises_walk ltac:(unfold not_denial; congruence).
  - by apply raises_only_raise.
  - apply raises_only_bind; [apply get_oauth_userinfo_never_denial|intros _].
    apply raises_only_ret.
Qed.

(** C8: a permission denial of [validate_token], that is any exception it
    raises other than a failure of the identity resolution it calls, is an
    [InvalidAudienceError] (the specification's NotPermitted), and no
    failure of [authenticate_token] is ever signalled with that class: it
    differs from [InvalidTokenError], [ExpiredSignatureError],
    [InvalidKeyError] and [ConnectionError] and from anything else
    authentication raises. *)
Theorem denial_distinct_from_authentication_failure
    X cfg w tok s1 e1 s1' token scopes request s2 e2 s2' :
  authenticate_token X cfg w tok s1 = (Raise e1, s1') →
  validate_token X cfg w token scopes request s2 = (Raise e2, s2') →
  get_oauth_userinfo X cfg w token s2 ≠ (Raise e2, s2') →
  e2 = InvalidAudienceError
  ∧ e1 ≠ e2
  ∧ e2 ∉ [InvalidTokenError; ExpiredSignatureError; InvalidKeyError;
          ConnectionError].
Proof.
  intros Hauth Hval Hres.
  assert (He2 : e2 = InvalidAudienceError).
  { unfold validate_token in Hval.
    destruct (PERMISSIONS_DISABLED cfg); [by inversion Hval|].
    destruct (match scopes with Some _ => _ | None => _ end);
      [by inversion Hval|].
    destruct (rules_falsy (PERMISSIONS cfg)); [by inversion Hval|].
    apply bind_inv in Hval as [(ui & s3 & _ & Hval) | (e & Hui & [= ->])].
    - repeat case_match; by inversion Hval.
    - done. }
  subst e2. split; [done|]. split.
  - by apply authenticate_token_never_denial in Hauth.
  - intros Hin.
    repeat (apply elem_of_cons in Hin as [Hin|Hin]; [discriminate|]).
    by apply elem_of_nil in Hin.
Qed.

Lemma denial_distinct_from_authentication_failure_witness :
  InvalidAudienceError = InvalidAudienceError
  ∧ ReqConnectionError ≠ InvalidAudienceError
  ∧ InvalidAudienceError ∉ [InvalidTokenError; ExpiredSignatureError;
                             InvalidKeyError; ConnectionError].
Proof.
  apply (denial_distinct_from_authentication_failure sample_externals
           (sample_settings true) world_down "token" (state_with [])
           ReqConnectionError
           (snd (authenticate_token sample_externals (sample_settings true)
                   world_down "token" (state_with [])))
           (Tok (mkToken "token" (Some sample_payload))) (Some ["read"])
           ("GET", "/devices/42") (state_with []) InvalidAudienceError
           (state_with [])).
  - vm_compute. reflexivity.
  - vm_compute. reflexivity.
  - intros H. vm_compute in H. discriminate H.
Defined.

(** * Identity for audit and display *)

(** C10: the two bypass paths answer with different built-in identities.
    With JWT checking off [get_jwt_identity] is ["admin"]; with
    provider-based verification off [get_oauth_identity] returns
    ["Admin"], touching nothing; the two strings differ. *)
Theorem bypass_identities_differ X cfg1 cfg2 w current_token s :
  JWT_ENABLED cfg1 = false →
  OIDC_ENABLED cfg2 = false →
  get_jwt_identity X cfg1 = "admin"
  ∧ get_oauth_identity X cfg2 w current_token s = (Ret (JStr "Admin"), s)
  ∧ JStr (get_jwt_identity X cfg1) ≠ JStr "Admin".
Proof.
  intros Hjwt Hoidc. unfold get_jwt_identity, get_oauth_identity.
  rewrite Hjwt, Hoidc. simpl. done.
Qed.

Lemma bypass_identities_differ_witness :
  get_jwt_identity sample_externals (sample_settings false) = "admin"
  ∧ get_oauth_identity sample_externals (sample_settings false) world_down
      NoTokenNeeded (state_with [])
    = (Ret (JStr "Admin"), state_with [])
  ∧ JStr (get_jwt_identity sample_externals (sample_settings false))
    ≠ JStr "Admin".
Proof.
  apply (bypass_identities_differ sample_externals (sample_settings false)
           (sample_settings false) world_down NoTokenNeeded (state_with [])
           eq_refl eq_refl).
Defined.

(** * Identity cache *)

Lemma purge_idem t db : purge t (purge t db) = purge t db.
Proof.
  unfold purge. destruct (rexpire db) as [e|] eqn:He; simpl.
  - destruct (e <=? t) eqn:Hle; simpl; [done|]. by rewrite He, Hle.
  - by rewrite He.
Qed.

#[local] Instance same_refl : Reflexive same.
Proof. by intros s. Qed.
#[local] Instance same_trans : Transitive same.
Proof. unfold same. by intros s1 s2 s3 -> ->. Qed.

#[local] Instance silent_refl : Reflexive silent.
Proof. intros s. exists []. by rewrite app_nil_r. Qed.
#[local] Instance silent_trans : Transitive silent.
Proof.
  intros s1 s2 s3 (evs1 & H1 & C1) (evs2 & H2 & C2).
  exists (evs1 ++ evs2). rewrite H2, H1, <- app_assoc, count_events_app.
  split; [done|lia].
Qed.

#[local] Instance quiet_refl w : Reflexive (quiet w).
Proof. intros s. split; reflexivity. Qed.
#[local] Instance quiet_trans w : Transitive (quiet w).
Proof.
  intros s1 s2 s3 [H1 S1] [H2 S2]. split; [congruence|by etrans].
Qed.

Section Post.
Context (R : state → state → Prop) `{!Reflexive R, !Transitive R}.







End Post.

Lemma post_weaken {A} (R R' : state → state → Prop) (m : M A) :
  (∀ s s', R s s' → R' s s') → post R m → post R' m.
Proof. intros HR Hm s r s' H. eapply HR, Hm, H. Qed.








Lemma purge_hsetnx t f v db :
  purge t (redis_hsetnx f v (purge t db)) = redis_hsetnx f v (purge t db).
Proof.
  assert (Hp : ∀ d, rexpire (purge t d) = None
                    ∨ ∃ e, rexpire (purge t d) = Some e ∧ (e <=? t) = false).
  { intros d. unfold purge. destruct (rexpire d) as [e|] eqn:He; simpl.
    - destruct (e <=? t) eqn:Hle; simpl; [by left|]. right. eauto.
    - rewrite He. by left. }
  unfold redis_hsetnx.
  destruct (rhash (purge t db) !! f); [apply purge_idem|].
  unfold purge at 1. simpl.
  destruct (Hp db) as [->|(e & -> & ->)]; done.
Qed.









Lemma expireat_after_hsetnx when f v db :
  rexpire (redis_expireat_lt when (redis_hsetnx f v db))
  = Some (match rexpire db with
          | Some old => Z.min old when
          | None => when
          end).
Proof.
  assert (Hne : rhash (redis_hsetnx f v db) ≠ ∅
                ∧ rexpire (redis_hsetnx f v db) = rexpire db).
  { unfold redis_hsetnx. destruct (rhash db !! f) eqn:Hf; simpl.
    - split; [|done]. intros Hempty. by rewrite Hempty in Hf.
    - split; [|done]. apply insert_non_empty. }
  destruct Hne as [Hne Hex]. unfold redis_expireat_lt.
  rewrite bool_decide_eq_false_2 by done. rewrite Hex.
  destruct (rexpire db) as [old|]; [|done].
  destruct (when <? old) eqn:Hlt; simpl; f_equal.
  - apply Z.ltb_lt in Hlt. lia.
  - apply Z.ltb_ge in Hlt. rewrite Hex. f_equal. lia.
Qed.




(** ** The scenarios of the specification *)

(** Registry empty, the provider serves [k2] and [k3], the token names
    [k1]: one refresh, a second scan, then [InvalidKeyError]. *)
Example scenario_unknown_kid :
  authenticate_token sample_externals (sample_settings true) world_up
    "token" (state_with [])
  = (Raise InvalidKeyError,
     mkState [key_of "k2"; key_of "k3"] (mkRedis ∅ None)
       [EvLookup (Some "k1"); EvRefresh;
        EvGet "https://idp/.well-known/openid-configuration";
        EvGet "https://idp/jwks"; EvLookup (Some "k1")]).
Proof. vm_compute. reflexivity. Qed.

(** A second resolution of the same subject is served from the cache: no
    request goes to the provider. *)
Example scenario_second_resolution_cached :
  let token := Tok (mkToken "token" (Some sample_payload)) in
  let s1 := snd (get_oauth_userinfo sample_externals (sample_settings true)
                   world_up token (state_with [])) in
  let run2 := get_oauth_userinfo sample_externals (sample_settings true)
                world_up token (mkState [] (redis s1) []) in
  fst run2 = Ret (Some sample_userinfo)
  ∧ trace (snd run2) = [EvRedisSession; EvHget "alice"].
Proof. vm_compute. split; reflexivity. Qed.

(** Expiry within the hour: the entry expires with the token. *)
Example scenario_expiry_before_hour :
  rexpire (redis (snd (get_oauth_userinfo sample_externals
                         (sample_settings true) world_up
                         (Tok (mkToken "token" (Some short_payload)))
                         (state_with []))))
  = Some 2000.
Proof. vm_compute. reflexivity. Qed.

(** Expiry after the hour: the entry expires an hour from now. *)
Example scenario_expiry_after_hour :
  rexpire (redis (snd (get_oauth_userinfo sample_externals
                         (sample_settings true) world_up
                         (Tok (mkToken "token" (Some sample_payload)))
                         (state_with []))))
  = Some 4600.
Proof. vm_compute. reflexivity. Qed.

(** An earlier live expiry of the hash is kept, a later one is shortened. *)
Example scenario_stored_expiry :
  rexpire (redis (snd (get_oauth_userinfo sample_externals
                         (sample_settings true) world_up
                         (Tok (mkToken "token" (Some short_payload)))
                         (state_cached 1500))))
  = Some 1500
  ∧ rexpire (redis (snd (get_oauth_userinfo sample_externals
                           (sample_settings true) world_up
                           (Tok (mkToken "token" (Some short_payload)))
                           (state_cached 3000))))
    = Some 2000.
Proof. vm_compute. split; reflexivity. Qed.

Lemma length_snoc {A} (l : list A) (x : A) : length (l ++ [x]) = S (length l).
Proof. rewrite length_app. simpl. lia. Qed.

(** X1: a refresh succeeds exactly when both answers are JSON, the
    discovery document has [jwks_uri] and the key-set document has [keys];
    the registry then holds the served list and nothing of what it held
    before.  The HTTP status of neither answer plays a part. *)
Theorem get_keys_installs_served_keys cfg w s s' :
  get_keys cfg w s = (Ret (), s') ↔
  ∃ r1 disc uri r2 doc ks,
    get_discovery w (S (length (trace s))) (OIDC_CONF_WELL_KNOWN_URL cfg)
    = HResp r1
    ∧ json r1 = Some disc
    ∧ disc !! "jwks_uri" = Some uri
    ∧ get_jwks w (S (S (length (trace s)))) uri = HResp r2
    ∧ json r2 = Some doc
    ∧ doc !! "keys" = Some ks
    ∧ s' = mkState ks (redis s)
             (trace s ++ [EvRefresh; EvGet (OIDC_CONF_WELL_KNOWN_URL cfg);
                          EvGet uri]).
Proof.
  split.
  - intros H. run_inv. rewrite !length_snoc in *.
    eexists _, _, _, _, _, _. repeat (split; [eassumption|]).
    unfold set_keys, log. simpl. by rewrite <- !app_assoc.
  - intros (r1 & disc & uri & r2 & doc & ks & H1 & J1 & U & H2 & J2 & K & ->).
    unfold get_keys, session_get_discovery, session_get_jwks, resp_json,
      subscript, bind, try_except, emit, tick, answer, ret.
    simpl. rewrite !length_snoc, H1. simpl. rewrite J1. simpl. rewrite U.
    simpl. rewrite !length_snoc, H2. simpl. rewrite J2. simpl. rewrite K.
    unfold set_keys, log. simpl. by rewrite <- !app_assoc.
Qed.







(** X3: when a refresh installs a key set with an entry that has no [kid],
    the lookup that asked for the refresh raises [InvalidKeyError]; from
    then on every [get_key] on that registry, for any identifier, stops at
    its first scan with a [KeyError] and never refreshes again. *)
Theorem registry_poisoned_by_unidentified_key cfg w kid s s1 k :
  kid_absent (jwks_keys s) kid = true →
  get_keys cfg w (log (EvLookup kid) s) = (Ret (), s1) →
  k ∈ jwks_keys s1 →
  k !! "kid" = None →
  get_key cfg w kid s = (Raise InvalidKeyError, log (EvLookup kid) s1)
  ∧ ∀ cfg' w' kid' s2,
      jwks_keys s2 = jwks_keys s1 →
      get_key cfg' w' kid' s2 = (Raise KeyError, log (EvLookup kid') s2).
Proof.
  intros Habs Hk Hin Hnone. split.
  - rewrite (get_key_absent_run _ _ _ _ (select_kid_absent _ _ Habs)), Hk.
    rewrite (select_kid_unidentified _ _ _ Hin Hnone).
    destruct (jwks_keys s1); [by apply elem_of_nil in Hin|done].
  - intros cfg' w' kid' s2 Heq.
    unfold get_key, lookup_kid, bind, emit, get_state, lift. simpl.
    by rewrite Heq, (select_kid_unidentified _ _ _ Hin Hnone).
Qed.

Lemma get_keys_events cfg w s r s' :
  get_keys cfg w s = (r, s') →
  redis s' = redis s
  ∧ ∃ evs, trace s' = trace s ++ EvRefresh :: evs
           ∧ forallb is_get evs = true
           ∧ (length evs ≤ 2)%nat.
Proof.
  intros H. run_inv; (split; [done|]); rewrite <- ?app_assoc; simpl;
    eexists; (split; [reflexivity|]); simpl; split; (done || lia).
Qed.

Lemma get_key_states cfg w kid s r s' :
  get_key cfg w kid s = (r, s') →
  s' = log (EvLookup kid) s
  ∨ ∃ r2 s2, get_keys cfg w (log (EvLookup kid) s) = (r2, s2)
             ∧ (s' = s2 ∨ s' = log (EvLookup kid) s2).
Proof.
  intros H. unfold get_key, lookup_kid in H.
  repeat (run_step; simpl in * ); eauto 6.
Qed.

Lemma gets_counts evs :
  forallb is_get evs = true →
  forallb key_event evs = true
  ∧ count_events is_refresh evs = 0%nat
  ∧ count_events is_lookup evs = 0%nat
  ∧ count_events is_get evs = length evs.
Proof.
  induction evs as [|ev evs IH]; simpl; [done|].
  intros [Hev Hevs]%andb_prop. destruct (IH Hevs) as (H1 & H2 & H3 & H4).
  destruct ev; try discriminate. simpl. rewrite H1, H2, H3, H4. done.
Qed.

Lemma forallb_app_true {A} (p : A → bool) l1 l2 :
  forallb p l1 = true → forallb p l2 = true → forallb p (l1 ++ l2) = true.
Proof. intros H1 H2. rewrite forallb_app, H1, H2. done. Qed.

(** X4: for a token whose header parses, [authenticate_token] leaves the
    cache alone and never asks the userinfo endpoint: all it does outside
    is scan the registry (at most twice), refresh it (at most once) and
    send the GET requests of that refresh (at most two). *)
Theorem structured_token_keeps_to_registry X cfg w tok h s r s' :
  jose_get_unverified_header X tok = HeaderOk h →
  authenticate_token X cfg w tok s = (r, s') →
  redis s' = redis s
  ∧ ∃ evs, trace s' = trace s ++ evs
           ∧ forallb key_event evs = true
           ∧ (count_events is_refresh evs ≤ 1)%nat
           ∧ (count_events is_get evs ≤ 2)%nat
           ∧ (count_events is_lookup evs ≤ 2)%nat.
Proof.
  intros Hh H. unfold authenticate_token in H.
  destruct (negb (OIDC_ENABLED cfg)).
  { inversion H; subst. split; [done|]. exists []. rewrite app_nil_r.
    simpl. repeat split; (done || lia). }
  rewrite Hh in H.
  assert (Hkey : ∃ rk, get_key cfg w (h !! "kid") s = (rk, s')).
  { apply bind_inv in H as [(key & s1 & Hk & H) | (e & Hk & _)]; [|eauto].
    destruct (jose_decode _ _ _ _ _ _); inversion H; subst; eauto. }
  destruct Hkey as [rk Hkey]. clear H.
  apply get_key_states in Hkey as [->|(r2 & s2 & Hk & Hs')].
  { split; [done|]. exists [EvLookup (h !! "kid")]. simpl.
    repeat split; (done || lia). }
  apply get_keys_events in Hk as (Hredis & gets & Htr & Hg & Hlen).
  destruct (gets_counts _ Hg) as (Hkev & Hr & Hl & Hc).
  simpl in Htr, Hredis. rewrite <- app_assoc in Htr. simpl in Htr.
  destruct Hs' as [->| ->].
  - split; [done|]. eexists. split; [exact Htr|]. simpl.
    rewrite Hkev, Hr, Hl, Hc. repeat split; (done || lia).
  - split; [done|]. simpl. rewrite Htr, <- app_assoc. simpl.
    eexists. split; [reflexivity|]. simpl.
    rewrite !count_events_app, Hr, Hl, Hc. simpl.
    rewrite forallb_app_true by done. repeat split; (done || lia).
Qed.

(** X5: with provider-based verification enabled, when every key of the
    registry has a [kid] member and one of them has the identifier of the
    token's header, the outcome of [authenticate_token] is that of
    [jose.jwt.decode] on the keys with that identifier: the payload in a
    [Token], [ExpiredSignatureError] for an expired token,
    [InvalidKeyError] for a key error, [InvalidTokenError] for any other
    failure (signature, audience, claims); no refresh is made. *)
Theorem authenticate_token_decode_outcome X cfg w tok h s :
  OIDC_ENABLED cfg = true →
  jose_get_unverified_header X tok = HeaderOk h →
  identified (jwks_keys s) = true →
  existsb (has_kid (h !! "kid")) (jwks_keys s) = true →
  authenticate_token X cfg w tok s
  = (match jose_decode X tok
             (List.filter (has_kid (h !! "kid")) (jwks_keys s))
             (h !! "alg") (AUDIENCE cfg) (VERIFY_AUDIENCE cfg) with
     | DecodeOk payload => Ret (Tok (mkToken tok (Some payload)))
     | DecodeExpired => Raise ExpiredSignatureError
     | DecodeJWKError => Raise InvalidKeyError
     | DecodeJWTError => Raise InvalidTokenError
     end,
     log (EvLookup (h !! "kid")) s).
Proof.
  intros Hon Hh Hid Hex. unfold authenticate_token.
  rewrite Hon, Hh. simpl.
  destruct (filter_some_cons _ _ Hex) as (k & ks & Hf).
  assert (Hkey : get_key cfg w (h !! "kid") s
                 = (Ret (k :: ks), log (EvLookup (h !! "kid")) s)).
  { unfold get_key, lookup_kid, bind, emit, get_state, lift. simpl.
    by rewrite (select_kid_identified _ _ Hid), Hf. }
  rewrite (bind_ret _ _ _ _ _ Hkey), <- Hf.
  by destruct (jose_decode _ _ _ _ _ _).
Qed.


Lemma raises_only_weaken {A} (P Q : exn → Prop) (m : M A) :
  (∀ e, P e → Q e) → raises_only P m → raises_only Q m.
Proof. intros HPQ Hm s e s' H. eapply HPQ, Hm, H. Qed.







Ltac red_run :=
  cbn -[lookup insert Z.leb Z.ltb Z.min Z.add purge redis_hsetnx
        redis_expireat_lt length app].

Ltac unfold_run :=
  unfold get_oauth_userinfo, read_userinfo_cache, fetch_metadata,
    request_userinfo, write_userinfo_cache, redis_session, hget, hsetnx,
    expireat_lt, redis_call, session_get_discovery, session_post,
    raise_for_status, resp_json, subscript_opt, subscript, contains_opt,
    decoded_of, token_string_of, py_int, answer, bind, try_except, emit,
    tick, get_state, lift, raise, ret.

(** X7: when the cache backend answers and holds, live, a non-empty entry
    under the token's subject, [get_oauth_userinfo] returns that entry as
    parsed by [json.loads] after two Redis commands, without any request
    to the provider. *)
Theorem userinfo_served_from_cache X cfg w t d sub c j s :
  OIDC_ENABLED cfg = true →
  decoded_token t = Some d →
  d !! "sub" = Some sub →
  redis_fails w (length (trace s)) = false →
  redis_fails w (S (length (trace s))) = false →
  rhash (purge (now w) (redis s)) !! field_of X sub = Some c →
  truthy c = true →
  json_loads X c = Some j →
  get_oauth_userinfo X cfg w (Tok t) s
  = (Ret (Some j),
     mkState (jwks_keys s) (purge (now w) (redis s))
       (trace s ++ [EvRedisSession; EvHget (field_of X sub)])).
Proof.
  intros Hon Hd Hsub Hr1 Hr2 Hc Ht Hj. unfold_run.
  rewrite Hon. red_run. rewrite Hr1. red_run. rewrite Hd. red_run. rewrite Hsub.
  red_run. rewrite length_snoc, Hr2. red_run.
  rewrite purge_idem, Hc, Ht, Hj. red_run.
  unfold set_redis, log. red_run. by rewrite ?purge_idem, <- ?app_assoc.
Qed.

(** X8: when the cache backend is down at both sessions and the provider
    answers, [get_oauth_userinfo] still returns the provider's answer, for
    any token object, and the cache is left as it was. *)
Theorem userinfo_resolved_without_cache X cfg w t r1 disc ep r2 j s :
  OIDC_ENABLED cfg = true →
  redis_fails w (length (trace s)) = true →
  get_discovery w (S (length (trace s))) (OIDC_CONF_WELL_KNOWN_URL cfg)
  = HResp r1 →
  (400 <=? status_code r1) && (status_code r1 <? 600) = false →
  json r1 = Some disc →
  disc !! "userinfo_endpoint" = Some ep →
  post_userinfo w (S (S (length (trace s)))) ep (token_string t) = HResp r2 →
  (400 <=? status_code r2) && (status_code r2 <? 600) = false →
  json r2 = Some j →
  redis_fails w (S (S (S (length (trace s))))) = true →
  get_oauth_userinfo X cfg w (Tok t) s
  = (Ret (Some j),
     mkState (jwks_keys s) (redis s)
       (trace s ++ [EvRedisSession;
                    EvGet (OIDC_CONF_WELL_KNOWN_URL cfg);
                    EvPost ep (token_string t); EvRedisSession])).
Proof.
  intros Hon Hr1 Hd Hs1 Hj1 Hep Hp Hs2 Hj2 Hr2. unfold_run.
  rewrite Hon. red_run. rewrite Hr1. red_run.
  rewrite !length_snoc, Hd. red_run. rewrite Hs1. red_run. rewrite Hj1. red_run.
  rewrite Hep. red_run. rewrite !length_snoc, Hp. red_run. rewrite Hs2. red_run.
  rewrite Hj2. red_run. rewrite !length_snoc, Hr2. red_run.
  unfold log. red_run. rewrite Hj2. red_run. by rewrite <- !app_assoc.
Qed.


Lemma read_userinfo_cache_opaque X w tok s :
  read_userinfo_cache X w (Tok (mkToken tok None)) s
  = if redis_fails w (length (trace s))
    then (Ret None, log EvRedisSession s)
    else (Raise TypeError,
          set_redis (purge (now w) (redis s)) (log EvRedisSession s)).
Proof.
  unfold_run. red_run. by destruct (redis_fails w (length (trace s))).
Qed.

Lemma write_userinfo_cache_opaque X w tok resp s :
  write_userinfo_cache X w (Tok (mkToken tok None)) resp s
  = if redis_fails w (length (trace s))
    then (Raise RedisError, log EvRedisSession s)
    else (Raise TypeError,
          set_redis (purge (now w) (redis s)) (log EvRedisSession s)).
Proof.
  unfold_run. red_run. by destruct (redis_fails w (length (trace s))).
Qed.

Lemma fetch_metadata_ret cfg w s m s' :
  fetch_metadata cfg w s = (Ret m, s') →
  s' = log (EvGet (OIDC_CONF_WELL_KNOWN_URL cfg)) s.
Proof. intros H. run_inv; done. Qed.

Lemma request_userinfo_opaque_ret X w tok ep s resp s' :
  request_userinfo X w (Tok (mkToken tok None)) ep s = (Ret resp, s') →
  s' = log EvRedisSession (log (EvPost ep tok) s)
  ∧ redis_fails w (S (length (trace s))) = true.
Proof.
  intros H.
  unfold request_userinfo, session_post, raise_for_status, resp_json,
    token_string_of, answer in H.
  repeat (run_step; simpl in * ).
  all: match goal with
       | Hw : write_userinfo_cache _ _ _ _ _ = _ |- _ =>
           rewrite write_userinfo_cache_opaque in Hw; simpl in Hw;
           rewrite length_snoc in Hw;
           destruct (redis_fails w (S (length (trace _)))) eqn:Hf;
           inversion Hw; subst
       end.
  all: try discriminate; try done.
Qed.

(** X9: [authenticate_token] returns for a token whose header does not
    parse only when the cache backend failed at both the read and the
    write session: the result is then the token with no claims, the cache
    is untouched and the provider was asked once with the raw string. *)
Theorem opaque_token_accepted_only_without_cache X cfg w tok s a s' :
  OIDC_ENABLED cfg = true →
  jose_get_unverified_header X tok = HeaderJWTError →
  authenticate_token X cfg w tok s = (Ret a, s') →
  a = Tok (mkToken tok None)
  ∧ redis s' = redis s
  ∧ redis_fails w (length (trace s)) = true
  ∧ redis_fails w (S (S (S (length (trace s))))) = true
  ∧ ∃ ep,
      trace s' = trace s ++ [EvRedisSession;
                             EvGet (OIDC_CONF_WELL_KNOWN_URL cfg);
                             EvPost ep tok; EvRedisSession].
Proof.
  intros Hon Hh H. unfold authenticate_token in H. rewrite Hon, Hh in H.
  simpl in H.
  apply bind_inv in H as [(ui & s1 & Hui & H) | (e & _ & [=])].
  inversion H; subst; clear H. split; [done|].
  unfold get_oauth_userinfo in Hui. rewrite Hon in Hui. simpl in Hui.
  apply bind_inv in Hui as [(cached & s1 & Hread & H) | (e & _ & [=])].
  rewrite read_userinfo_cache_opaque in Hread.
  destruct (redis_fails w (length (trace s))) eqn:Hdown; [|discriminate].
  inversion Hread; subst; clear Hread.
  apply bind_inv in H as [(metadata & s2 & Hm & H) | (e & _ & [=])].
  apply fetch_metadata_ret in Hm as ->.
  apply bind_inv in H as [(mj & s3 & Hmj & H) | (e & _ & [=])].
  apply bind_inv in H as [(ep & s4 & Hep & H) | (e & _ & [=])].
  apply bind_inv in H as [(resp & s5 & Hreq & H) | (e & _ & [=])].
  apply bind_inv in H as [(j & s6 & Hj & H) | (e & _ & [=])].
  assert (s3 = log (EvGet (OIDC_CONF_WELL_KNOWN_URL cfg)) (log EvRedisSession s))
    as -> by (unfold resp_json in Hmj; case_match; by inversion Hmj).
  assert (s4 = log (EvGet (OIDC_CONF_WELL_KNOWN_URL cfg)) (log EvRedisSession s))
    as -> by (unfold subscript in Hep; case_match; by inversion Hep).
  apply request_userinfo_opaque_ret in Hreq as [-> Hw].
  assert (s6 = log EvRedisSession (log (EvPost ep tok)
                 (log (EvGet (OIDC_CONF_WELL_KNOWN_URL cfg))
                    (log EvRedisSession s))))
    as -> by (unfold resp_json in Hj; case_match; by inversion Hj).
  inversion H; subst; clear H. simpl in *. rewrite !length_snoc in Hw.
  repeat split; try done.
  exists ep. by rewrite <- !app_assoc.
Qed.

Lemma purge_live t db e :
  rexpire db = Some e → t < e → purge t db = db.
Proof.
  intros He Hlt. unfold purge. rewrite He.
  destruct (e <=? t) eqn:Hle; [|done]. apply Z.leb_le in Hle. lia.
Qed.

Lemma purge_expiry_live t db e : rexpire (purge t db) = Some e → t < e.
Proof.
  unfold purge. destruct (rexpire db) as [e0|] eqn:He0; simpl.
  - destruct (e0 <=? t) eqn:Hle; simpl; [done|].
    rewrite He0. intros [= <-]. by apply Z.leb_gt in Hle.
  - by rewrite He0.
Qed.

Lemma rhash_expireat_lt when db :
  rhash (redis_expireat_lt when db) = rhash db.
Proof.
  unfold redis_expireat_lt. case_bool_decide; [done|].
  destruct (rexpire db); [|done]. by destruct (when <? z).
Qed.

Lemma rhash_hsetnx_fresh f v db :
  rhash db !! f = None → rhash (redis_hsetnx f v db) !! f = Some v.
Proof.
  intros Hf. unfold redis_hsetnx. rewrite Hf. simpl. apply lookup_insert_eq.
Qed.

(** The run of a resolution that misses the cache, asks the provider and
    writes the answer through, the cache backend being up. *)
Lemma userinfo_write_through_run X cfg w t d sub ex e r1 disc ep r2 j s :
  OIDC_ENABLED cfg = true →
  decoded_token t = Some d →
  d !! "sub" = Some sub →
  d !! "exp" = Some ex →
  int_value X ex = Some e →
  (∀ i, redis_fails w i = false) →
  rhash (purge (now w) (redis s)) !! field_of X sub = None →
  get_discovery w (S (S (length (trace s)))) (OIDC_CONF_WELL_KNOWN_URL cfg)
  = HResp r1 →
  (400 <=? status_code r1) && (status_code r1 <? 600) = false →
  json r1 = Some disc →
  disc !! "userinfo_endpoint" = Some ep →
  post_userinfo w (S (S (S (length (trace s))))) ep (token_string t)
  = HResp r2 →
  (400 <=? status_code r2) && (status_code r2 <? 600) = false →
  json r2 = Some j →
  get_oauth_userinfo X cfg w (Tok t) s
  = (Ret (Some j),
     mkState (jwks_keys s)
       (redis_expireat_lt (Z.min e (now w + 3600))
          (redis_hsetnx (field_of X sub) (text r2)
             (purge (now w) (redis s))))
       (trace s ++ [EvRedisSession; EvHget (field_of X sub);
                    EvGet (OIDC_CONF_WELL_KNOWN_URL cfg);
                    EvPost ep (token_string t); EvRedisSession;
                    EvHsetnx (field_of X sub) (text r2);
                    EvExpireat (Z.min e (now w + 3600))])).
Proof.
  intros Hon Hd Hsub Hex Hint Hup Hmiss Hdisc Hs1 Hj1 Hep Hpost Hs2 Hj2.
  destruct ex as [sx|z]; simpl in Hint; [|injection Hint as ->].
  all: unfold_run; rewrite Hon; red_run; rewrite ?Hup; red_run;
    rewrite Hd; red_run; rewrite Hsub; red_run; rewrite ?Hup; red_run;
    rewrite !purge_idem, Hmiss; red_run;
    rewrite !length_snoc, Hdisc; red_run; rewrite Hs1; red_run;
    rewrite Hj1; red_run; rewrite Hep; red_run;
    rewrite !length_snoc, Hpost; red_run; rewrite Hs2; red_run;
    rewrite Hj2; red_run; rewrite ?Hup; red_run; rewrite Hex;
    rewrite bool_decide_eq_true_2 by eauto; red_run;
    rewrite ?Hup; red_run; rewrite ?Hint; red_run;
    rewrite ?Hup; red_run; rewrite Hj2; red_run;
    unfold set_redis, log; red_run;
    rewrite ?purge_idem, purge_hsetnx, <- !app_assoc; done.
Qed.

(** X10: write then read.  On a cache miss with the backend up and an
    unexpired token, the first resolution returns the provider's answer
    and stores the response text under the subject; a second resolution
    from the resulting state returns the stored text as parsed by
    [json.loads] and sends nothing to the provider. *)
Theorem userinfo_written_then_served
    X cfg w t d sub ex e r1 disc ep r2 j j' s :
  OIDC_ENABLED cfg = true →
  decoded_token t = Some d →
  d !! "sub" = Some sub →
  d !! "exp" = Some ex →
  int_value X ex = Some e →
  now w < e →
  (∀ i, redis_fails w i = false) →
  rhash (purge (now w) (redis s)) !! field_of X sub = None →
  get_discovery w (S (S (length (trace s)))) (OIDC_CONF_WELL_KNOWN_URL cfg)
  = HResp r1 →
  (400 <=? status_code r1) && (status_code r1 <? 600) = false →
  json r1 = Some disc →
  disc !! "userinfo_endpoint" = Some ep →
  post_userinfo w (S (S (S (length (trace s))))) ep (token_string t)
  = HResp r2 →
  (400 <=? status_code r2) && (status_code r2 <? 600) = false →
  json r2 = Some j →
  truthy (text r2) = true →
  json_loads X (text r2) = Some j' →
  ∃ s1,
    get_oauth_userinfo X cfg w (Tok t) s = (Ret (Some j), s1)
    ∧ rhash (redis s1) !! field_of X sub = Some (text r2)
    ∧ get_oauth_userinfo X cfg w (Tok t) s1
      = (Ret (Some j'),
         mkState (jwks_keys s1) (redis s1)
           (trace s1 ++ [EvRedisSession; EvHget (field_of X sub)])).
Proof.
  intros Hon Hd Hsub Hex Hint Hlive Hup Hmiss Hdisc Hs1 Hj1 Hep Hpost Hs2 Hj2
    Htxt Hloads.
  eexists. split; [by eapply userinfo_write_through_run|].
  set (db := purge (now w) (redis s)) in *.
  set (when := Z.min e (now w + 3600)).
  set (R := redis_expireat_lt when
              (redis_hsetnx (field_of X sub) (text r2) db)).
  assert (Hc : rhash R !! field_of X sub = Some (text r2)).
  { unfold R. rewrite rhash_expireat_lt. by apply rhash_hsetnx_fresh. }
  assert (HpR : purge (now w) R = R).
  { eapply purge_live; [apply expireat_after_hsetnx|].
    destruct (rexpire db) as [old|] eqn:Hold; [|unfold when; lia].
    apply purge_expiry_live in Hold. unfold when. lia. }
  split; [done|].
  unfold_run. rewrite Hon. red_run. rewrite ?Hup. red_run.
  rewrite Hd. red_run. rewrite Hsub. red_run. rewrite ?Hup. red_run.
  fold db when R. rewrite !HpR, Hc, Htxt, Hloads. red_run.
  unfold set_redis, log. red_run. fold db when R.
  by rewrite ?HpR, <- !app_assoc.
Qed.

(** X11: with provider-based verification on and the userinfo cached,
    [get_identity] returns the cached [email] after two Redis commands and
    no request to the provider. *)
Theorem identity_served_from_cache X cfg w t d sub c j v s :
  OIDC_ENABLED cfg = true →
  decoded_token t = Some d →
  d !! "sub" = Some sub →
  redis_fails w (length (trace s)) = false →
  redis_fails w (S (length (trace s))) = false →
  rhash (purge (now w) (redis s)) !! field_of X sub = Some c →
  truthy c = true →
  json_loads X c = Some j →
  j !! "email" = Some v →
  get_identity X cfg w (Tok t) s
  = (Ret v,
     mkState (jwks_keys s) (purge (now w) (redis s))
       (trace s ++ [EvRedisSession; EvHget (field_of X sub)])).
Proof.
  intros Hon Hd Hsub Hr1 Hr2 Hc Ht Hj Hv.
  unfold get_identity, get_oauth_identity. rewrite Hon. red_run.
  unfold_run. rewrite Hon. red_run. rewrite Hr1. red_run. rewrite Hd.
  red_run. rewrite Hsub. red_run. rewrite length_snoc, Hr2. red_run.
  rewrite purge_idem, Hc, Ht, Hj. red_run. rewrite Hv.
  rewrite bool_decide_eq_true_2 by eauto. red_run.
  unfold set_redis, log. red_run. by rewrite ?purge_idem, <- app_assoc.
Qed.

(** X12: the built-in ["Admin"] of [get_oauth_identity] is never what
    [get_identity] returns: when [get_identity] returns ["Admin"], either
    provider-based verification is on and that is the resolved [email], or
    it is off and that is what [flask_jwt_extended] gives with JWT
    checking on. *)
Theorem built_in_Admin_never_seen X cfg w current_token s s' :
  get_identity X cfg w current_token s = (Ret (JStr "Admin"), s') →
  (OIDC_ENABLED cfg = true
   ∧ ∃ u, get_oauth_userinfo X cfg w current_token s = (Ret (Some u), s')
          ∧ u !! "email" = Some (JStr "Admin"))
  ∨ (OIDC_ENABLED cfg = false ∧ JWT_ENABLED cfg = true
     ∧ get_jwt_identity_orig X = "Admin" ∧ s' = s).
Proof.
  unfold get_identity, get_oauth_identity, get_jwt_identity.
  destruct (OIDC_ENABLED cfg); simpl; intros H.
  - left. split; [done|].
    apply bind_inv in H as [(ui & s1 & Hui & H) | (e & _ & [=])].
    destruct ui as [u|]; [|by inversion H]. exists u.
    case_bool_decide; [|by inversion H].
    unfold subscript in H. destruct (u !! "email"); inversion H; by subst.
  - right. destruct (JWT_ENABLED cfg); inversion H; by subst.
Qed.

(** X13: [validate_token] allows a request exactly when permissions are
    disabled, or the scopes include ["always_permitted"], or a rule table
    is set, the identity resolves and the permissions it gets are not
    empty and permit the call; what it returns is always the token it was
    given, and in the first two cases nothing outside is touched. *)
Theorem validate_token_allows_iff X cfg w token scopes request s a s' :
  validate_token X cfg w token scopes request s = (Ret a, s') ↔
  a = token
  ∧ ((PERMISSIONS_DISABLED cfg = true ∧ s' = s)
     ∨ (PERMISSIONS_DISABLED cfg = false ∧ always_permitted scopes = true
        ∧ s' = s)
     ∨ (PERMISSIONS_DISABLED cfg = false ∧ always_permitted scopes = false
        ∧ rules_falsy (PERMISSIONS cfg) = false
        ∧ ∃ ui,
            get_oauth_userinfo X cfg w token s = (Ret ui, s')
            ∧ get_permissions_user X (PERMISSIONS cfg) ui ≠ []
            ∧ check_if_api_call_is_permitted X request
                (get_permissions_user X (PERMISSIONS cfg) ui) = true)).
Proof.
  unfold validate_token, always_permitted.
  destruct (PERMISSIONS_DISABLED cfg).
  { split; [intros [= <- <-]; eauto|]. intros [-> [[_ ->]|[[? _]|[? _]]]]; done. }
  destruct (match scopes with Some _ => _ | None => _ end).
  { split; [intros [= <- <-]; eauto 6|].
    intros [-> [[? _]|[(_ & _ & ->)|(_ & ? & _)]]]; done. }
  destruct (rules_falsy (PERMISSIONS cfg)).
  { split; [done|]. intros [_ [[? _]|[(_ & ? & _)|(_ & _ & ? & _)]]]; done. }
  split.
  - intros H.
    apply bind_inv in H as [(ui & s1 & Hui & H) | (e & _ & [=])].
    destruct (get_permissions_user X (PERMISSIONS cfg) ui) eqn:Hp;
      [by inversion H|].
    simpl in H.
    destruct (check_if_api_call_is_permitted X request _) eqn:Hc;
      inversion H; subst.
    split; [done|]. right. right. repeat split; try done.
    exists ui. rewrite Hp. done.
  - intros [-> [[? _]|[(_ & ? & _)|(_ & _ & _ & ui & Hui & Hp & Hc)]]];
      try done.
    rewrite (bind_ret _ _ _ _ _ Hui).
    destruct (get_permissions_user X (PERMISSIONS cfg) ui); [done|].
    simpl. by rewrite Hc.
Qed.

(** * Linknets *)

Lemma linknet_device_linkable session h which dev :
  linknet_device session h which = inr dev ↔ linkable session h dev.
Proof.
  unfold linknet_device, linkable.
  destruct (query_hostname session h) as [e|[d|]]; [|simpl|].
  - split; [done|]. by intros [? _].
  - destruct (dev_state d) eqn:Hs; simpl.
    + destruct (dev_device_type d) eqn:Ht; simpl.
      * split; [intros [= <-]; eauto|]. by intros [[= ->] _].
      * split; [intros [= <-]; eauto|]. by intros [[= ->] _].
      * split; [done|]. intros [[= <-] [_ [?|?]]]; congruence.
    + split; [done|]. intros [[= <-] [? _]]. congruence.
  - split; [done|]. by intros [? _].
Qed.

Lemma create_linknet_created_helper
    session hostname_a interface_a hostname_b interface_b linknet l :
  snd (create_linknet session hostname_a interface_a hostname_b interface_b
         linknet) = inr l
  → ∃ dev_a dev_b network_address,
      linkable session hostname_a dev_a
      ∧ linkable session hostname_b dev_b
      ∧ linknet = IPv4Network network_address 31
      ∧ l = {| ipv4_network := None;
               device_a := Some dev_a;
               device_a_ip := Some network_address;
               device_a_port := Some interface_a;
               device_b := Some dev_b;
               device_b_ip := Some (Z.lor network_address 1);
               device_b_port := Some interface_b;
               description := None |}.
Proof.
  unfold create_linknet.
  destruct (linknet_device session hostname_a _) as [e|dev_a] eqn:Ha;
    [done|].
  destruct (linknet_device session hostname_b _) as [e|dev_b] eqn:Hb;
    [done|].
  apply linknet_device_linkable in Ha, Hb.
  destruct linknet as [n p|]; [|done].
  destruct (p =? 31) eqn:Hp; simpl; [|done].
  apply Z.eqb_eq in Hp as ->. intros [= <-]. by exists dev_a, dev_b, n.
Qed.

(** X14: [create_linknet] returns a link exactly when each hostname
    matches one device that is managed and of type dist or core and the
    linknet is an IPv4 network of prefix length 31; the link then joins
    the two devices on the given ports with the two addresses of the
    network, and its [ipv4_network] and [description] are left unset. *)
Theorem create_linknet_created_iff
    session hostname_a interface_a hostname_b interface_b linknet l :
  snd (create_linknet session hostname_a interface_a hostname_b interface_b
         linknet) = inr l
  ↔ ∃ dev_a dev_b network_address,
      linkable session hostname_a dev_a
      ∧ linkable session hostname_b dev_b
      ∧ linknet = IPv4Network network_address 31
      ∧ l = {| ipv4_network := None;
               device_a := Some dev_a;
               device_a_ip := Some network_address;
               device_a_port := Some interface_a;
               device_b := Some dev_b;
               device_b_ip := Some (Z.lor network_address 1);
               device_b_port := Some interface_b;
               description := None |}.
Proof.
  split; [apply create_linknet_created_helper|].
  intros (dev_a & dev_b & n & Ha & Hb & -> & ->). unfold create_linknet.
  apply (linknet_device_linkable _ _ "hostname_a") in Ha.
  apply (linknet_device_linkable _ _ "hostname_b") in Hb.
  by rewrite Ha, Hb.
Qed.

Lemma lor_one_even n : Z.even n = true → Z.lor n 1 = n + 1.
Proof.
  intros Hev. rewrite <- (Z.add_lor_land n 1).
  change (Z.land n 1) with (Z.land n (Z.ones 1)).
  rewrite Z.land_ones by lia. rewrite Zmod_even, Hev. lia.
Qed.

(** X15: for a /31 network (whose address is even) the link gives end a
    the network address and end b the next one. *)
Theorem create_linknet_addresses
    session hostname_a interface_a hostname_b interface_b network_address l :
  Z.even network_address = true →
  snd (create_linknet session hostname_a interface_a hostname_b interface_b
         (IPv4Network network_address 31)) = inr l →
  device_a_ip l = Some network_address
  ∧ device_b_ip l = Some (network_address + 1)
  ∧ device_a_port l = Some interface_a
  ∧ device_b_port l = Some interface_b
  ∧ ipv4_network l = None.
Proof.
  intros Hev H. apply create_linknet_created_helper in H
    as (dev_a & dev_b & n & _ & _ & [= <-] & ->).
  simpl. by rewrite lor_one_even.
Qed.

(** X16: [create_linknet] calls [pdb.set_trace()] exactly when both
    devices pass their checks and the linknet is not an IPv4 network of
    prefix length 31. *)
Theorem create_linknet_debugger_iff
    session hostname_a interface_a hostname_b interface_b linknet :
  fst (create_linknet session hostname_a interface_a hostname_b interface_b
         linknet) = true
  ↔ (∃ dev_a dev_b, linkable session hostname_a dev_a
                    ∧ linkable session hostname_b dev_b)
    ∧ (∀ network_address, linknet ≠ IPv4Network network_address 31).
Proof.
  unfold create_linknet. split.
  - destruct (linknet_device session hostname_a _) as [e|dev_a] eqn:Ha;
      [done|].
    destruct (linknet_device session hostname_b _) as [e|dev_b] eqn:Hb;
      [done|].
    apply linknet_device_linkable in Ha, Hb.
    destruct linknet as [n p|]; [|by eauto].
    destruct (p =? 31) eqn:Hp; simpl; [done|].
    apply Z.eqb_neq in Hp. intros _. split; [by eauto|]. congruence.
  - intros [(dev_a & dev_b & Ha & Hb) Hnet].
    apply (linknet_device_linkable _ _ "hostname_a") in Ha.
    apply (linknet_device_linkable _ _ "hostname_b") in Hb.
    rewrite Ha, Hb. destruct linknet as [n p|]; [|done].
    destruct (p =? 31) eqn:Hp; simpl; [|done].
    apply Z.eqb_eq in Hp as ->. by destruct (Hnet n).
Qed.

(** X17: nothing in [create_linknet] tells the two ends apart: the same
    hostname, and the same port, at both ends give a link from the device
    to itself. *)
Theorem create_linknet_same_device_both_ends
    session hostname interface_a interface_b dev network_address :
  linkable session hostname dev →
  create_linknet session hostname interface_a hostname interface_b
    (IPv4Network network_address 31)
  = (false,
     inr {| ipv4_network := None;
            device_a := Some dev;
            device_a_ip := Some network_address;
            device_a_port := Some interface_a;
            device_b := Some dev;
            device_b_ip := Some (Z.lor network_address 1);
            device_b_port := Some interface_b;
            description := None |}).
Proof.
  intros Hd. unfold create_linknet.
  rewrite (proj2 (linknet_device_linkable _ _ "hostname_a" _) Hd).
  by rewrite (proj2 (linknet_device_linkable _ _ "hostname_b" _) Hd).
Qed.

(** * The scheduler mule *)

Lemma resolve_when_plain utcnow data data' k :
  resolve_when utcnow data = inr data' →
  k ≠ "when" → k ≠ "run_date" → data' !! k = data !! k.
Proof.
  unfold resolve_when. intros H Hw Hr. repeat case_match; simplify_eq; [|done].
  by rewrite lookup_delete_ne, lookup_insert_ne.
Qed.

(** X18: the [kwargs] of the job added for a message never hold [func],
    [trigger], [id] or [run_date]; they hold every other member of the
    message unchanged, except that [when] is left out when it was a
    non-zero integer and is passed on otherwise. *)
Theorem job_kwargs_spec utcnow data j :
  handle_message utcnow (Object data) = inr j →
  (∀ k, reserved k = true → job_kwargs j !! k = None)
  ∧ (∀ k, reserved k = false → k ≠ "when" →
          job_kwargs j !! k = data !! k)
  ∧ job_kwargs j !! "when"
    = match data !! "when" with
      | Some when => match when_seconds when with
                     | Some _ => None
                     | None => Some when
                     end
      | None => None
      end.
Proof.
  unfold handle_message, item. intros H.
  destruct (resolve_when utcnow data) as [e|data'] eqn:Hres; [done|].
  destruct (data' !! "func"), (data' !! "trigger"), (data' !! "id"),
    (data' !! "run_date"); try done.
  injection H as <-. simpl. split; [|split].
  - intros k Hk. apply map_lookup_filter_None. right. intros v _. simpl.
    congruence.
  - intros k Hk Hw.
    assert (Hrd : k ≠ "run_date").
    { intros ->. by vm_compute in Hk. }
    rewrite <- (resolve_when_plain _ _ _ _ Hres Hw Hrd).
    destruct (data' !! k) as [v|] eqn:Hv.
    + apply map_lookup_filter_Some. split; [done|]. exact Hk.
    + apply map_lookup_filter_None. by left.
  - unfold resolve_when in Hres.
    destruct (data !! "when") as [when|] eqn:Hwhen; [|done].
    destruct (when_seconds when) as [n|].
    + destruct (run_date_in utcnow n); [|done]. simplify_eq.
      apply map_lookup_filter_None. left. apply lookup_delete_eq.
    + simplify_eq. apply map_lookup_filter_Some. split; [done|].
      by vm_compute.
Qed.

Lemma run_date_in_value utcnow n t :
  run_date_in utcnow n = Some t → t = utcnow + n * 1000000.
Proof.
  unfold run_date_in, timedelta_seconds, datetime_add.
  repeat case_match; naive_solver.
Qed.

(** X19: a message whose [when] is a non-zero integer is scheduled at
    [utcnow() + when] seconds, whatever [run_date] it carried, with its
    own [func], [trigger] and [id]. *)
Theorem relative_when_sets_run_date utcnow data when n j :
  data !! "when" = Some when →
  when_seconds when = Some n →
  handle_message utcnow (Object data) = inr j →
  run_date_in utcnow n = Some (utcnow + n * 1000000)
  ∧ job_run_date j = PDatetime (utcnow + n * 1000000)
  ∧ data !! "func" = Some (job_func j)
  ∧ data !! "trigger" = Some (job_trigger j)
  ∧ data !! "id" = Some (job_id j).
Proof.
  intros Hw Hn H. unfold handle_message, resolve_when, item in H.
  rewrite Hw, Hn in H.
  destruct (run_date_in utcnow n) as [t|] eqn:Ht; [|done].
  pose proof (run_date_in_value _ _ _ Ht) as ->.
  rewrite !lookup_delete_ne, !lookup_insert_ne, lookup_insert_eq in H by done.
  destruct (data !! "func"), (data !! "trigger"), (data !! "id"); try done.
  by injection H as <-.
Qed.


Lemma serve_app_failure pre utcnow msg post jobs e :
  Forall2 (fun tm j => handle_message tm.1 tm.2 = inr j) pre jobs →
  handle_message utcnow msg = inl e →
  serve (pre ++ (utcnow, msg) :: post) = (MuleAddJob <$> jobs, Some e).
Proof.
  intros Hpre Hfail. induction Hpre as [|[t m] j pre jobs Hj _ IH]; simpl.
  - by rewrite Hfail.
  - simpl in Hj. by rewrite Hj, IH.
Qed.

(** X21: the loop has no handler: the first message that fails ends it
    with that exception, the jobs of the messages before it have been
    added and no later message is looked at. *)
Theorem main_loop_stops_at_first_failure pre utcnow msg post jobs e :
  Forall2 (fun tm j => handle_message tm.1 tm.2 = inr j) pre jobs →
  handle_message utcnow msg = inl e →
  main_loop true (pre ++ (utcnow, msg) :: post)
  = ([MulePrint "Running scheduler in uwsgi mule"; MuleSchedulerStart;
      MuleLoadPlugins] ++ (MuleAddJob <$> jobs),
     Some e).
Proof.
  intros Hpre Hfail. unfold main_loop.
  by rewrite (serve_app_failure _ _ _ _ _ _ Hpre Hfail).
Qed.

(** * The further properties at sample inputs *)


Lemma registry_poisoned_by_unidentified_key_witness :
  fst (get_key (sample_settings true) world_unidentified_key (Some "k1")
         (state_with []))
  = Raise InvalidKeyError.
Proof.
  rewrite (proj1 (registry_poisoned_by_unidentified_key
                    (sample_settings true) world_unidentified_key (Some "k1")
                    (state_with [])
                    (snd (get_keys (sample_settings true)
                            world_unidentified_key
                            (log (EvLookup (Some "k1")) (state_with []))))
                    unidentified_key eq_refl eq_refl
                    (list_elem_of_here _ _) eq_refl)).
  reflexivity.
Defined.

Lemma structured_token_keeps_to_registry_witness :
  redis (snd (authenticate_token sample_externals (sample_settings true)
                world_up "token" (state_with [])))
  = redis (state_with []).
Proof.
  apply (structured_token_keeps_to_registry sample_externals
           (sample_settings true) world_up "token" sample_header
           (state_with []) _ _ eq_refl (surjective_pairing _)).
Defined.

Lemma authenticate_token_decode_outcome_witness :
  authenticate_token expired_externals (sample_settings true) world_up
    "token" (state_with [key_of "k1"])
  = (Raise ExpiredSignatureError,
     log (EvLookup (Some "k1")) (state_with [key_of "k1"])).
Proof.
  apply (authenticate_token_decode_outcome expired_externals
           (sample_settings true) world_up "token" sample_header
           (state_with [key_of "k1"]) eq_refl eq_refl eq_refl eq_refl).
Defined.


Lemma userinfo_served_from_cache_witness :
  fst (get_oauth_userinfo sample_externals (sample_settings true) world_up
         (Tok sample_token) state_alice_cached)
  = Ret (Some sample_userinfo).
Proof.
  rewrite (userinfo_served_from_cache sample_externals (sample_settings true)
             world_up sample_token sample_payload (JStr "alice")
             "userinfo-of-alice" sample_userinfo state_alice_cached
             eq_refl eq_refl eq_refl eq_refl eq_refl eq_refl eq_refl eq_refl).
  reflexivity.
Defined.

Lemma userinfo_resolved_without_cache_witness :
  fst (get_oauth_userinfo sample_externals (sample_settings true)
         world_cache_down (Tok sample_token) (state_with []))
  = Ret (Some sample_userinfo).
Proof.
  rewrite (userinfo_resolved_without_cache sample_externals
             (sample_settings true) world_cache_down sample_token
             (mkResponse 200 "" (Some sample_discovery)) sample_discovery
             "https://idp/userinfo"
             (mkResponse 200 "userinfo-of-alice" (Some sample_userinfo))
             sample_userinfo (state_with [])
             eq_refl eq_refl eq_refl eq_refl eq_refl eq_refl eq_refl eq_refl
             eq_refl eq_refl).
  reflexivity.
Defined.

Lemma opaque_token_accepted_only_without_cache_witness :
  redis_fails world_cache_down (length (trace (state_with []))) = true.
Proof.
  apply (opaque_token_accepted_only_without_cache sample_externals
           (sample_settings true) world_cache_down "opaque" (state_with [])
           (Tok (mkToken "opaque" None))
           (snd (authenticate_token sample_externals (sample_settings true)
                   world_cache_down "opaque" (state_with [])))
           eq_refl eq_refl).
  vm_compute. reflexivity.
Defined.

Lemma userinfo_written_then_served_witness :
  ∃ s1,
    get_oauth_userinfo sample_externals (sample_settings true) world_up
      (Tok sample_token) (state_with [])
    = (Ret (Some sample_userinfo), s1)
    ∧ rhash (redis s1) !! field_of sample_externals (JStr "alice")
      = Some "userinfo-of-alice"
    ∧ get_oauth_userinfo sample_externals (sample_settings true) world_up
        (Tok sample_token) s1
      = (Ret (Some sample_userinfo),
         mkState (jwks_keys s1) (redis s1)
           (trace s1 ++ [EvRedisSession;
                         EvHget (field_of sample_externals (JStr "alice"))])).
Proof.
  apply (userinfo_written_then_served sample_externals (sample_settings true)
           world_up sample_token sample_payload (JStr "alice") (JInt 5000)
           5000 (mkResponse 200 "" (Some sample_discovery)) sample_discovery
           "https://idp/userinfo"
           (mkResponse 200 "userinfo-of-alice" (Some sample_userinfo))
           sample_userinfo sample_userinfo (state_with [])
           eq_refl eq_refl eq_refl eq_refl eq_refl eq_refl
           (fun _ => eq_refl) eq_refl eq_refl eq_refl eq_refl eq_refl
           eq_refl eq_refl eq_refl eq_refl eq_refl).
Defined.

Lemma identity_served_from_cache_witness :
  fst (get_identity sample_externals (sample_settings true) world_up
         (Tok sample_token) state_alice_cached)
  = Ret (JStr "user@example.com").
Proof.
  rewrite (identity_served_from_cache sample_externals (sample_settings true)
             world_up sample_token sample_payload (JStr "alice")
             "userinfo-of-alice" sample_userinfo (JStr "user@example.com")
             state_alice_cached
             eq_refl eq_refl eq_refl eq_refl eq_refl eq_refl eq_refl eq_refl
             eq_refl).
  reflexivity.
Defined.

Lemma built_in_Admin_never_seen_witness :
  (OIDC_ENABLED jwt_settings = true
   ∧ ∃ u, get_oauth_userinfo expired_externals jwt_settings world_up
            NoTokenNeeded (state_with [])
          = (Ret (Some u), state_with [])
          ∧ u !! "email" = Some (JStr "Admin"))
  ∨ (OIDC_ENABLED jwt_settings = false ∧ JWT_ENABLED jwt_settings = true
     ∧ get_jwt_identity_orig expired_externals = "Admin"
     ∧ state_with [] = state_with []).
Proof.
  apply (built_in_Admin_never_seen expired_externals jwt_settings world_up
           NoTokenNeeded (state_with []) (state_with [])).
  reflexivity.
Defined.

Lemma create_linknet_addresses_witness :
  device_a_ip sample_linknet = Some sample_network
  ∧ device_b_ip sample_linknet = Some (sample_network + 1)
  ∧ device_a_port sample_linknet = Some "Ethernet1"
  ∧ device_b_port sample_linknet = Some "Ethernet2"
  ∧ ipv4_network sample_linknet = None.
Proof.
  apply (create_linknet_addresses sample_devices "dist1" "Ethernet1" "core1"
           "Ethernet2" sample_network sample_linknet eq_refl eq_refl).
Defined.

Lemma create_linknet_same_device_both_ends_witness :
  fst (create_linknet sample_devices "dist1" "Ethernet1" "dist1" "Ethernet1"
         (IPv4Network sample_network 31))
  = false.
Proof.
  rewrite (create_linknet_same_device_both_ends sample_devices "dist1"
             "Ethernet1" "Ethernet1" (mkDevice 1 "dist1" MANAGED DIST)
             sample_network
             (conj eq_refl (conj eq_refl (or_introl eq_refl)))).
  reflexivity.
Defined.

Lemma job_kwargs_spec_witness :
  job_kwargs sample_job !! "when" = None
  ∧ job_kwargs sample_job !! "hostname" = Some (PStr "sw1").
Proof.
  destruct (job_kwargs_spec sample_utcnow sample_message sample_job)
    as (_ & Hother & Hwhen); [vm_compute; reflexivity|].
  split; [exact Hwhen|]. apply Hother; [vm_compute; reflexivity|done].
Defined.

Lemma relative_when_sets_run_date_witness :
  job_run_date sample_job = PDatetime (sample_utcnow + 60 * 1000000).
Proof.
  apply (relative_when_sets_run_date sample_utcnow sample_message (PInt 60)
           60 sample_job eq_refl eq_refl).
  vm_compute. reflexivity.
Defined.

Lemma main_loop_stops_at_first_failure_witness :
  main_loop true
    ([(sample_utcnow, Object sample_message)]
     ++ (sample_utcnow, Object (delete "when" sample_message))
        :: [(sample_utcnow, Object sample_message)])
  = ([MulePrint "Running scheduler in uwsgi mule"; MuleSchedulerStart;
      MuleLoadPlugins] ++ (MuleAddJob <$> [sample_job]),
     Some (MuleKeyError "when")).
Proof.
  apply main_loop_stops_at_first_failure.
  - constructor; [vm_compute; reflexivity|constructor].
  - vm_compute. reflexivity.
Defined.
